(** * A shallow embedding of the community-feed API server (server.js)

    The server is a single Express application over a SQLite database of
    four tables (posts, media, reactions, comments) and an upload
    directory.  Each route handler is embedded as a computation in a small
    state-and-exception monad over a [world]: the four tables, the files
    of the upload directory, the sources of [uuidv4()] and [Date.now()],
    and the sequence of writes performed so far.

    What the embedding fixes:
    - request fields are text when present ([option string]): the fields of
      a multipart form, of a query string, and the free-text fields of the
      JSON bodies;
    - numbers are exact integers or NaN; they agree with JavaScript's
      doubles for magnitudes up to [MAX_SAFE_INTEGER];
    - strings are byte strings (UTF-8);
    - a handler is the callback of its route: it runs after the middleware
      (multer, body-parser) has parsed the request, so the files of a
      create-post request are already in the upload directory and never
      number more than six;
    - one request is handled at a time. *)

From stdpp Require Import gmap strings list fin_maps sorting pretty.
From Stdlib Require Import ZArith Lia Ascii.

#[local] Open Scope Z_scope.
#[local] Set Warnings "-register-all,-clear-no-such-hyp".

(** ** JavaScript values *)

(** The numbers the list handler computes with: an integer, or NaN. *)
Inductive jsnum :=
| NaN
| Num (z : Z).

Definition MAX_SAFE_INTEGER : Z := 2 ^ 53 - 1.

(** [Math.max(a, b)], [Math.min(a, b)], [a - b], [a * b]: NaN is absorbing. *)
Definition Math_max (a b : jsnum) : jsnum :=
  match a, b with
  | Num x, Num y => Num (Z.max x y)
  | _, _ => NaN
  end.

Definition Math_min (a b : jsnum) : jsnum :=
  match a, b with
  | Num x, Num y => Num (Z.min x y)
  | _, _ => NaN
  end.

Definition js_sub (a b : jsnum) : jsnum :=
  match a, b with
  | Num x, Num y => Num (x - y)
  | _, _ => NaN
  end.

Definition js_mul (a b : jsnum) : jsnum :=
  match a, b with
  | Num x, Num y => Num (x * y)
  | _, _ => NaN
  end.

(** JSON values, as the handlers build them and as [res.json] sends them.
    An object is a finite map from its own property names to values. *)
Inductive json :=
| JNull
| JBool (b : bool)
| JNum (z : Z)
| JStr (s : string)
| JArr (l : list json)
| JObj (o : gmap string json).

(** An object literal [{k1: v1, ..., kn: vn}]. *)
Definition obj (l : list (string * json)) : json := JObj (list_to_map l).

(** [o[k] = v] on an object created by [{}], as in
    [reactionObj[r.type] = r.cnt].  The name ["__proto__"] is the accessor
    that [{}] inherits from [Object.prototype]: assigning through it never
    creates an own property (the setter changes the prototype when [v] is
    an object or null and does nothing otherwise).  Every other name
    becomes, or overwrites, an own property. *)
Definition set_property (k : string) (v : json) (o : gmap string json)
  : gmap string json :=
  if decide (k = "__proto__") then o else <[k := v]> o.

(** ** [parseInt(string)] with no radix *)

Definition byte (a : ascii) : N := N_of_ascii a.

(** White space and line terminators of one byte: TAB, LF, VT, FF, CR, SP. *)
Definition is_space1 (a : ascii) : bool :=
  let n := byte a in
  ((9 <=? n) && (n <=? 13) || (n =? 32))%N.

(** U+00A0 in UTF-8. *)
Definition is_space2 (a b : ascii) : bool :=
  ((byte a =? 194) && (byte b =? 160))%N.

(** U+1680, U+2000..U+200A, U+2028, U+2029, U+202F, U+205F, U+3000 and
    U+FEFF in UTF-8. *)
Definition is_space3 (a b c : ascii) : bool :=
  let '(x, y, z) := (byte a, byte b, byte c) in
  ((x =? 225) && (y =? 154) && (z =? 128)
   || (x =? 226) && (y =? 128)
      && ((128 <=? z) && (z <=? 138) || (z =? 168) || (z =? 169) || (z =? 175))
   || (x =? 226) && (y =? 129) && (z =? 159)
   || (x =? 227) && (y =? 128) && (z =? 128)
   || (x =? 239) && (y =? 187) && (z =? 191))%N.

Fixpoint trimStart (s : string) : string :=
  match s with
  | EmptyString => s
  | String a r =>
      if is_space1 a then trimStart r
      else match r with
           | EmptyString => s
           | String b r2 =>
               if is_space2 a b then trimStart r2
               else match r2 with
                    | EmptyString => s
                    | String c r3 => if is_space3 a b c then trimStart r3 else s
                    end
           end
  end.

(** The value of a character as a digit of the given radix (10 or 16). *)
Definition digit_value (radix : Z) (a : ascii) : option Z :=
  let n := Z.of_N (byte a) in
  if (48 <=? n) && (n <=? 57) then Some (n - 48)
  else if (radix =? 16) && (97 <=? n) && (n <=? 102) then Some (n - 87)
  else if (radix =? 16) && (65 <=? n) && (n <=? 70) then Some (n - 55)
  else None.

(** The longest prefix of digits, read as a number; [acc] is [None] until a
    digit has been seen. *)
Fixpoint parse_digits (radix : Z) (s : string) (acc : option Z) : option Z :=
  match s with
  | EmptyString => acc
  | String a r =>
      match digit_value radix a with
      | Some d => parse_digits radix r (Some (radix * default 0 acc + d))
      | None => acc
      end
  end.

Definition parseInt (input : string) : jsnum :=
  let s := trimStart input in
  let '(sign, s) :=
    match s with
    | String "-"%char r => (-1, r)
    | String "+"%char r => (1, r)
    | _ => (1, s)
    end in
  let '(radix, s) :=
    match s with
    | String "0"%char (String "x"%char r)
    | String "0"%char (String "X"%char r) => (16, r)
    | _ => (10, s)
    end in
  match parse_digits radix s None with
  | None => NaN
  | Some v => Num (sign * v)
  end.

(** [v || d] for a query parameter [v]: absent and empty are falsy. *)
Definition or_default (v : option string) (d : string) : string :=
  match v with
  | Some (String a r) => String a r
  | _ => d
  end.

(** ** The tables *)

Module Post.
Record t := mk
  { id : string; author : string; text : string; community : string;
    created_at : Z }.

(** The row object that [SELECT * FROM posts] yields. *)
Definition to_object (p : t) : gmap string json :=
  list_to_map
    [("id", JStr (id p)); ("author", JStr (author p)); ("text", JStr (text p));
     ("community", JStr (community p)); ("created_at", JNum (created_at p))].
End Post.

Module Media.
Record t := mk
  { id : string; post_id : string; filename : string; mime : string }.
End Media.

Module Reaction.
Record t := mk
  { id : string; post_id : string; type : string; user : string;
    created_at : Z }.
End Reaction.

Module Comment.
Record t := mk
  { id : string; post_id : string; user : string; text : string;
    created_at : Z }.
End Comment.

(** A table is the list of its rows in insertion (rowid) order. *)
Record database := mkdb
  { posts : list Post.t;
    media : list Media.t;
    reactions : list Reaction.t;
    comments : list Comment.t }.

(** The writes a handler performs, in the order it performs them. *)
Inductive event :=
| InsertPost (r : Post.t)
| InsertMedia (r : Media.t)
| InsertReaction (r : Reaction.t)
| InsertComment (r : Comment.t)
| Unlink (filename : string)
| DeleteMedia (post_id : string)
| DeleteReactions (post_id : string)
| DeleteComments (post_id : string)
| DeletePost (id : string)
| ConsoleError (message : string).

(** [uploads]: the names of the files present in UPLOAD_DIR.  Stored
    filenames are the flat names multer's [diskStorage] generated
    ([<time>_<uuid><ext>]), so [path.join(UPLOAD_DIR, name)] is the file
    [name] of that directory.
    [uuid_source], [clock]: the value of the n-th call of [uuidv4()] and of
    [Date.now()]; [uuid_calls], [clock_calls] count the calls made. *)
Record world := mkworld
  { db : database;
    uploads : gset string;
    uuid_source : nat → string;
    uuid_calls : nat;
    clock : nat → Z;
    clock_calls : nat;
    trace : list event }.

Definition set_db (d : database) (w : world) : world :=
  mkworld d (uploads w) (uuid_source w) (uuid_calls w) (clock w)
          (clock_calls w) (trace w).

Definition set_uploads (u : gset string) (w : world) : world :=
  mkworld (db w) u (uuid_source w) (uuid_calls w) (clock w)
          (clock_calls w) (trace w).

Definition record (e : event) (w : world) : world :=
  mkworld (db w) (uploads w) (uuid_source w) (uuid_calls w) (clock w)
          (clock_calls w) (trace w ++ [e]).

(** ** The monad of handlers: state, and exceptions carrying a message *)

Inductive outcome (A : Type) :=
| Ok (a : A)
| Throw (message : string).
Arguments Ok {A} a.
Arguments Throw {A} message.

Definition M (A : Type) : Type := world → outcome A * world.

Definition ret {A} (a : A) : M A := λ w, (Ok a, w).

Definition bind {A B} (m : M A) (k : A → M B) : M B :=
  λ w, match m w with
       | (Ok a, w') => k a w'
       | (Throw e, w') => (Throw e, w')
       end.

(** [try { body } catch (err) { handler(err) }]: the state reached when the
    exception was thrown is kept. *)
Definition try_catch {A} (body : M A) (handler : string → M A) : M A :=
  λ w, match body w with
       | (Ok a, w') => (Ok a, w')
       | (Throw e, w') => handler e w'
       end.

Declare Scope js_scope.
Delimit Scope js_scope with js.
Notation "'let*' x := m 'in' k" := (bind m (λ x, k))
  (at level 10, x name, m at level 100, k at level 200,
   format "'[v' 'let*'  x  :=  m  'in' '/' k ']'") : js_scope.
Notation "m1 ;;; m2" := (bind m1 (λ _, m2))
  (at level 100, m2 at level 200, right associativity,
   format "'[v' m1  ;;; '/' m2 ']'") : js_scope.
#[local] Open Scope js_scope.

(** [for (const x of l) { await body(x) }] *)
Fixpoint for_of {A} (l : list A) (body : A → M unit) : M unit :=
  match l with
  | [] => ret tt
  | x :: l' => body x ;;; for_of l' body
  end.

(** [await Promise.all(l.map(async x => f(x)))], for bodies that only read
    the store: the results are collected in the order of [l]. *)
Fixpoint map_all {A B} (l : list A) (f : A → M B) : M (list B) :=
  match l with
  | [] => ret []
  | x :: l' => let* y := f x in let* ys := map_all l' f in ret (y :: ys)
  end.

(** ** The store: the SQL statements and file operations the handlers issue *)

Definition with_posts (l : list Post.t) (d : database) : database :=
  mkdb l (media d) (reactions d) (comments d).
Definition with_media (l : list Media.t) (d : database) : database :=
  mkdb (posts d) l (reactions d) (comments d).
Definition with_reactions (l : list Reaction.t) (d : database) : database :=
  mkdb (posts d) (media d) l (comments d).
Definition with_comments (l : list Comment.t) (d : database) : database :=
  mkdb (posts d) (media d) (reactions d) l.

(** The message of the error SQLite reports when an INSERT repeats a
    PRIMARY KEY. *)
Definition unique_failed (column : string) : string :=
  "SQLITE_CONSTRAINT: UNIQUE constraint failed: " +:+ column.

(** [INSERT INTO posts (id, author, text, community, created_at) VALUES ...] *)
Definition insert_post (r : Post.t) : M unit := λ w,
  if decide (Post.id r ∈ Post.id <$> posts (db w))
  then (Throw (unique_failed "posts.id"), w)
  else (Ok tt, record (InsertPost r)
                 (set_db (with_posts (posts (db w) ++ [r]) (db w)) w)).

(** [INSERT INTO media (id, post_id, filename, mime) VALUES ...]; SQLite
    does not enforce the FOREIGN KEY clause unless asked to, and the server
    does not ask. *)
Definition insert_media (r : Media.t) : M unit := λ w,
  if decide (Media.id r ∈ Media.id <$> media (db w))
  then (Throw (unique_failed "media.id"), w)
  else (Ok tt, record (InsertMedia r)
                 (set_db (with_media (media (db w) ++ [r]) (db w)) w)).

(** [INSERT INTO reactions (id, post_id, type, user, created_at) VALUES ...] *)
Definition insert_reaction (r : Reaction.t) : M unit := λ w,
  if decide (Reaction.id r ∈ Reaction.id <$> reactions (db w))
  then (Throw (unique_failed "reactions.id"), w)
  else (Ok tt, record (InsertReaction r)
                 (set_db (with_reactions (reactions (db w) ++ [r]) (db w)) w)).

(** [INSERT INTO comments (id, post_id, user, text, created_at) VALUES ...] *)
Definition insert_comment (r : Comment.t) : M unit := λ w,
  if decide (Comment.id r ∈ Comment.id <$> comments (db w))
  then (Throw (unique_failed "comments.id"), w)
  else (Ok tt, record (InsertComment r)
                 (set_db (with_comments (comments (db w) ++ [r]) (db w)) w)).

(** [SELECT * FROM posts WHERE id = ?] through [db.get]: the first matching
    row, or undefined. *)
Definition select_post (id : string) : M (option Post.t) := λ w,
  (Ok (head (filter (λ p, Post.id p = id) (posts (db w)))), w).

(** [LIMIT ? OFFSET ?] on integers: a negative limit is no limit, a
    negative offset is no offset. *)
Definition limit_offset {A} (limit offset : Z) (rows : list A) : list A :=
  let rest := drop (Z.to_nat offset) rows in
  if limit <? 0 then rest else take (Z.to_nat limit) rest.

(** [SELECT filename, mime FROM media WHERE post_id = ?] (the delete
    handler selects [filename] alone). *)
Definition select_media (post_id : string) : M (list Media.t) := λ w,
  (Ok (filter (λ m, Media.post_id m = post_id) (media (db w))), w).

(** The groups of [GROUP BY]: each distinct value with the number of its
    occurrences. *)
Definition group_count (values : list string) : list (string * Z) :=
  (λ v, (v, Z.of_nat (length (filter (λ x, x = v) values))))
    <$> remove_dups values.

(** [SELECT type, COUNT( * ) as cnt FROM reactions WHERE post_id = ? GROUP BY
    type]: one row per type that occurs. *)
Definition select_reaction_counts (post_id : string) : M (list (string * Z)) :=
  λ w, (Ok (group_count
              (Reaction.type
                 <$> filter (λ r, Reaction.post_id r = post_id)
                       (reactions (db w)))), w).

(** [SELECT COUNT( * ) as cnt FROM comments WHERE post_id = ?]: always one row. *)
Definition select_comment_count (post_id : string) : M (list Z) := λ w,
  (Ok [Z.of_nat (length (filter (λ c, Comment.post_id c = post_id)
                           (comments (db w))))], w).

(** [DELETE FROM media WHERE post_id = ?] and its three siblings. *)
Definition delete_media (post_id : string) : M unit := λ w,
  (Ok tt, record (DeleteMedia post_id)
            (set_db (with_media
                       (filter (λ m, Media.post_id m ≠ post_id) (media (db w)))
                       (db w)) w)).

Definition delete_reactions (post_id : string) : M unit := λ w,
  (Ok tt, record (DeleteReactions post_id)
            (set_db (with_reactions
                       (filter (λ r, Reaction.post_id r ≠ post_id)
                          (reactions (db w)))
                       (db w)) w)).

Definition delete_comments (post_id : string) : M unit := λ w,
  (Ok tt, record (DeleteComments post_id)
            (set_db (with_comments
                       (filter (λ c, Comment.post_id c ≠ post_id)
                          (comments (db w)))
                       (db w)) w)).

Definition delete_post (id : string) : M unit := λ w,
  (Ok tt, record (DeletePost id)
            (set_db (with_posts (filter (λ p, Post.id p ≠ id) (posts (db w)))
                       (db w)) w)).

(** [fs.existsSync(path.join(UPLOAD_DIR, name))] *)
Definition existsSync (name : string) : M bool := λ w,
  (Ok (bool_decide (name ∈ uploads w)), w).

(** [fs.unlinkSync(path.join(UPLOAD_DIR, name))]: throws when there is no
    such file. *)
Definition unlinkSync (name : string) : M unit := λ w,
  if decide (name ∈ uploads w)
  then (Ok tt, record (Unlink name) (set_uploads (uploads w ∖ {[name]}) w))
  else (Throw ("ENOENT: no such file or directory, unlink " +:+ name), w).

Definition uuidv4 : M string := λ w,
  (Ok (uuid_source w (uuid_calls w)),
   mkworld (db w) (uploads w) (uuid_source w) (S (uuid_calls w)) (clock w)
           (clock_calls w) (trace w)).

Definition Date_now : M Z := λ w,
  (Ok (clock w (clock_calls w)),
   mkworld (db w) (uploads w) (uuid_source w) (uuid_calls w) (clock w)
           (S (clock_calls w)) (trace w)).

Definition console_error (message : string) : M unit := λ w,
  (Ok tt, record (ConsoleError message) w).

(** ** Requests and responses *)

Record response := mkres { status : Z; body : json }.

(** [res.json(b)] and [res.status(s).json(b)] *)
Definition res_json (b : json) : response := mkres 200 b.
Definition res_status_json (s : Z) (b : json) : response := mkres s b.

(** [{ success: false, error: message }] *)
Definition failure (message : string) : json :=
  obj [("success", JBool false); ("error", JStr message)].

(** A property whose value may be undefined: [JSON.stringify] leaves an
    undefined property out. *)
Definition with_optional (k : string) (v : option json)
    (o : gmap string json) : gmap string json :=
  match v with
  | Some j => <[k := j]> o
  | None => o
  end.

(** The text fields of the multipart form of a create-post request. *)
Record post_form := mkform
  { form_text : option string;
    form_author : option string;
    form_community : option string }.

(** What the handlers read of a file object that multer stored. *)
Module File.
Record t := mk { filename : string; mimetype : string }.
End File.

Record reaction_body := mkreaction_body
  { body_type : option string; body_user : option string }.

Record comment_body := mkcomment_body
  { comment_user : option string; comment_text : option string }.

Record list_query := mkquery
  { query_page : option string; query_limit : option string }.

(** ** The route handlers *)

(** The [catch] block shared by five handlers. *)
Definition log_and_fail (err : string) : M response :=
  console_error err ;;;
  ret (res_status_json 500 (failure err)).

(** [app.post('/api/posts', upload.array('files', 6), ...)]: [files] is
    [req.files], the files multer has already stored. *)
Definition post_api_posts (form : post_form) (files : option (list File.t))
  : M response :=
  try_catch
    (let text := default "" (form_text form) in
     let author := default "Anônimo" (form_author form) in
     let community := default "" (form_community form) in
     let* id := uuidv4 in
     let* now := Date_now in
     insert_post (Post.mk id author text community now) ;;;
     for_of (default [] files) (λ f,
       let* media_id := uuidv4 in
       insert_media
         (Media.mk media_id id (File.filename f) (File.mimetype f))) ;;;
     let* post := select_post id in
     ret (res_json
            (JObj (with_optional "post" (JObj ∘ Post.to_object <$> post)
                     {["success" := JBool true]}))))
    log_and_fail.

(** Lines 105-107 of the list handler: page, limit and offset. *)
Definition page_limit_offset (q : list_query) : jsnum * jsnum * jsnum :=
  let page := Math_max (Num 1) (parseInt (or_default (query_page q) "1")) in
  let limit := Math_min (Num 50) (parseInt (or_default (query_limit q) "8")) in
  let offset := js_mul (js_sub page (Num 1)) limit in
  (page, limit, offset).

(** [JSON.stringify] of a number: NaN is written as null. *)
Definition json_of_num (n : jsnum) : json :=
  match n with
  | Num z => JNum z
  | NaN => JNull
  end.

(** [{ url: `/uploads/${m.filename}`, mime: m.mime }] *)
Definition media_entry (m : Media.t) : json :=
  obj [("url", JStr ("/uploads/" +:+ Media.filename m));
       ("mime", JStr (Media.mime m))].

(** [reactions.forEach(r => reactionObj[r.type] = r.cnt)] from [{}] *)
Definition reaction_object (rows : list (string * Z)) : gmap string json :=
  foldl (λ o r, set_property r.1 (JNum r.2) o) ∅ rows.

(** The body of [rows.map(async (p) => ...)]: a post with its media, its
    reaction counts and its comment count. *)
Definition attach (p : Post.t) : M json :=
  let* media := select_media (Post.id p) in
  let* reactions := select_reaction_counts (Post.id p) in
  let* comments := select_comment_count (Post.id p) in
  let reactionObj := reaction_object reactions in
  ret (JObj
         (<["comments_count" := JNum (default 0 (head comments))]>
            (<["reactions" := JObj reactionObj]>
               (<["media" := JArr (media_entry <$> media)]>
                  (<["created_at" := JNum (Post.created_at p)]>
                     (Post.to_object p)))))).

Section Feed.
(** [ORDER BY created_at DESC] as the engine performs it.  SQL leaves the
    order of rows with equal keys to the engine, so the embedding takes the
    ordering as a parameter; the properties below assume of it only that it
    returns its input rearranged with [created_at] descending. *)
Variable order_by_created_at_desc : list Post.t → list Post.t.

(** [SELECT * FROM posts ORDER BY created_at DESC LIMIT ? OFFSET ?].  NaN is
    bound as NULL, which SQLite refuses as a limit or an offset. *)
Definition select_posts_page (limit offset : jsnum) : M (list Post.t) := λ w,
  match limit, offset with
  | Num l, Num o =>
      (Ok (limit_offset l o (order_by_created_at_desc (posts (db w)))), w)
  | _, _ => (Throw "SQLITE_MISMATCH: datatype mismatch", w)
  end.

(** [app.get('/api/posts', ...)] *)
Definition get_api_posts (q : list_query) : M response :=
  try_catch
    (let '(page, limit, offset) := page_limit_offset q in
     let* rows := select_posts_page limit offset in
     let* posts := map_all rows attach in
     ret (res_json
            (obj [("success", JBool true); ("page", json_of_num page);
                  ("limit", json_of_num limit); ("posts", JArr posts)])))
    log_and_fail.
End Feed.

(** [app.delete('/api/posts/:id', ...)] *)
Definition delete_api_posts_id (id : string) : M response :=
  try_catch
    (let* media := select_media id in
     for_of media (λ m,
       let* present := existsSync (Media.filename m) in
       if present then unlinkSync (Media.filename m) else ret tt) ;;;
     delete_media id ;;;
     delete_reactions id ;;;
     delete_comments id ;;;
     delete_post id ;;;
     ret (res_json (obj [("success", JBool true)])))
    log_and_fail.

(** [app.post('/api/posts/:id/reactions', ...)] *)
Definition post_api_posts_id_reactions (post_id : string) (b : reaction_body)
  : M response :=
  try_catch
    (let type := default "like" (body_type b) in
     let user := default "anonymous" (body_user b) in
     let* id := uuidv4 in
     let* now := Date_now in
     insert_reaction (Reaction.mk id post_id type user now) ;;;
     ret (res_json (obj [("success", JBool true); ("id", JStr id)])))
    log_and_fail.

(** [app.post('/api/posts/:id/comments', ...)]; [!text] holds of the empty
    string alone. *)
Definition post_api_posts_id_comments (post_id : string) (b : comment_body)
  : M response :=
  try_catch
    (let user := default "anonymous" (comment_user b) in
     let text := default "" (comment_text b) in
     if decide (text = "")
     then ret (res_status_json 400 (failure "Texto vazio"))
     else
       let* id := uuidv4 in
       let* now := Date_now in
       insert_comment (Comment.mk id post_id user text now) ;;;
       ret (res_json (obj [("success", JBool true); ("id", JStr id)])))
    log_and_fail.

(** [app.get('/api/posts/:id', ...)]: its [catch] block does not log. *)
Definition get_api_posts_id (id : string) : M response :=
  try_catch
    (let* post := select_post id in
     match post with
     | None => ret (res_status_json 404 (failure "not found"))
     | Some p =>
         let* media := select_media id in
         ret (res_json
                (obj [("success", JBool true);
                      ("post", JObj (<["media" := JArr (media_entry <$> media)]>
                                       (Post.to_object p)))]))
     end)
    (λ err, ret (res_status_json 500 (failure err))).

(** ** A concrete ordering, for running the list handler *)

Definition newer_first (a b : Post.t) : Prop :=
  Post.created_at b ≤ Post.created_at a.

#[global] Instance newer_first_dec : RelDecision newer_first.
Proof. intros a b. unfold newer_first. apply _. Defined.

Definition sort_newer_first : list Post.t → list Post.t :=
  merge_sort newer_first.

(** ** Reading a response *)

(** The [posts] array of a list response; empty for any other body. *)
Definition body_posts (j : json) : list json :=
  match j with
  | JObj o => match o !! "posts" with Some (JArr l) => l | _ => [] end
  | _ => []
  end.

(** A property of a JSON object; undefined for any other value. *)
Definition property (k : string) (j : json) : option json :=
  match j with
  | JObj o => o !! k
  | _ => None
  end.

(** ** The rows the handlers insert *)

(** The row the comment handler inserts in world [w]. *)
Definition new_comment (post_id : string) (b : comment_body) (w : world)
  : Comment.t :=
  Comment.mk (uuid_source w (uuid_calls w)) post_id
    (default "anonymous" (comment_user b)) (default "" (comment_text b))
    (clock w (clock_calls w)).

(** The row the reaction handler inserts in world [w]. *)
Definition new_reaction (post_id : string) (b : reaction_body) (w : world)
  : Reaction.t :=
  Reaction.mk (uuid_source w (uuid_calls w)) post_id
    (default "like" (body_type b)) (default "anonymous" (body_user b))
    (clock w (clock_calls w)).

(** The row the create-post handler inserts in world [w]. *)
Definition new_post (form : post_form) (w : world) : Post.t :=
  Post.mk (uuid_source w (uuid_calls w))
    (default "Anônimo" (form_author form)) (default "" (form_text form))
    (default "" (form_community form)) (clock w (clock_calls w)).

(** The Media rows the loop of the create-post handler inserts for [files]
    under post [post_id], when the next call of [uuidv4()] is call number
    [start] of [source]: one row per file, in order. *)
Fixpoint media_rows (source : nat → string) (start : nat) (post_id : string)
    (files : list File.t) : list Media.t :=
  match files with
  | [] => []
  | f :: files' =>
      Media.mk (source start) post_id (File.filename f) (File.mimetype f)
      :: media_rows source (S start) post_id files'
  end.

(** The Media rows of a create-post request handled in world [w]: the post
    takes the first generated id, the files the following ones. *)
Definition new_media (files : list File.t) (w : world) : list Media.t :=
  media_rows (uuid_source w) (S (uuid_calls w))
    (uuid_source w (uuid_calls w)) files.

(** The value [attach] computes for post [p] over database [d]. *)
Definition post_view (d : database) (p : Post.t) : json :=
  JObj
    (<["comments_count" :=
         JNum (Z.of_nat (length (filter (λ c, Comment.post_id c = Post.id p)
                                   (comments d))))]>
       (<["reactions" :=
            JObj (reaction_object
                    (group_count
                       (Reaction.type
                          <$> filter (λ r, Reaction.post_id r = Post.id p)
                                (reactions d))))]>
          (<["media" :=
               JArr (media_entry
                       <$> filter (λ m, Media.post_id m = Post.id p) (media d))]>
             (<["created_at" := JNum (Post.created_at p)]>
                (Post.to_object p))))).

(** The files [unlinkSync] removes when the delete loop visits [names] over
    the directory content [present], in order: a name is removed the first
    time it is met, if it is there. *)
Fixpoint unlinked (names : list string) (present : gset string)
  : list string :=
  match names with
  | [] => []
  | n :: names' =>
      if decide (n ∈ present)
      then n :: unlinked names' (present ∖ {[n]})
      else unlinked names' present
  end.

(** ** The list parameters as the interface description gives them *)

(** Page at least 1, limit within [1, 50], offset (page - 1) * limit. *)
Definition page_and_limit_in_range (q : list_query) : Prop :=
  ∃ p l : Z,
    page_limit_offset q = (Num p, Num l, Num ((p - 1) * l))
    ∧ 1 ≤ p ∧ 1 ≤ l ≤ 50.

(** ** The rows the aggregation counts *)

(** The Reaction rows of a post with a given type, and its Comment rows. *)
Definition reaction_rows (d : database) (post_id type : string)
  : list Reaction.t :=
  filter (λ r, Reaction.post_id r = post_id ∧ Reaction.type r = type)
    (reactions d).

Definition comment_rows (d : database) (post_id : string) : list Comment.t :=
  filter (λ c, Comment.post_id c = post_id) (comments d).

(** ** The application: requests, dispatched to their handlers *)

Inductive request :=
| CreatePost (form : post_form) (files : option (list File.t))
| ListPosts (q : list_query)
| GetPost (id : string)
| RemovePost (id : string)
| AddReaction (post_id : string) (b : reaction_body)
| AddComment (post_id : string) (b : comment_body).

Definition app (order : list Post.t → list Post.t) (r : request)
  : M response :=
  match r with
  | CreatePost form files => post_api_posts form files
  | ListPosts q => get_api_posts order q
  | GetPost id => get_api_posts_id id
  | RemovePost id => delete_api_posts_id id
  | AddReaction post_id b => post_api_posts_id_reactions post_id b
  | AddComment post_id b => post_api_posts_id_comments post_id b
  end.

(** The world after a sequence of requests, handled one after the other. *)
Fixpoint serve (order : list Post.t → list Post.t) (rs : list request)
    (w : world) : world :=
  match rs with
  | [] => w
  | r :: rs' => serve order rs' (app order r w).2
  end.

(** A computation that leaves the posts table and the source of ids as
    they are, however it ends. *)
Definition keeps_posts {A} (m : M A) : Prop :=
  ∀ w, posts (db (m w).2) = posts (db w)
       ∧ uuid_source (m w).2 = uuid_source w.

(** The body of the response a handler returned; null when the handler
    itself threw. *)
Definition response_body (o : outcome response) : json :=
  match o with
  | Ok r => body r
  | Throw _ => JNull
  end.

(** ** The middleware in front of the handlers *)

(** [upload.array('files', 6)]: the number of files multer lets through. *)
Definition MAX_FILES : nat := 6.

(** The requests that reach their handler: a create-post request with
    more than [MAX_FILES] files is refused by multer and answered by
    Express.  (A body that does not parse is no [request] at all.) *)
Definition reaches_handler (r : request) : Prop :=
  match r with
  | CreatePost _ (Some files) => (length files ≤ MAX_FILES)%nat
  | _ => True
  end.

(** ** Statements about computations *)

(** [I] holds after [m] when it held before, however [m] ends. *)
Definition preserves {A} (I : world → Prop) (m : M A) : Prop :=
  ∀ w, I w → I (m w).2.

(** What [m] returns, when it returns, satisfies [P]. *)
Definition returns {A} (P : A → Prop) (m : M A) : Prop :=
  ∀ w a w', m w = (Ok a, w') → P a.

(** The envelope of a JSON answer: one of the four statuses the handlers
    use, and a [success] flag that is true exactly for status 200. *)
Definition envelope (r : response) : Prop :=
  status r ∈ [200; 400; 404; 500]
  ∧ property "success" (body r) = Some (JBool (bool_decide (status r = 200))).

(** ** Invariants of the database *)

(** [id] is a PRIMARY KEY of each table: no two rows of a table share it. *)
Definition primary_keys (d : database) : Prop :=
  NoDup (Post.id <$> posts d) ∧ NoDup (Media.id <$> media d)
  ∧ NoDup (Reaction.id <$> reactions d) ∧ NoDup (Comment.id <$> comments d).

(** Every Media row belongs to a Post row. *)
Definition media_owned (d : database) : Prop :=
  ∀ m, m ∈ media d → Media.post_id m ∈ Post.id <$> posts d.

(** ** Decimal numerals *)

(** A decimal digit. *)
Definition is_decimal (c : ascii) : Prop :=
  ∃ d : N, (d < 10)%N ∧ c = pretty_N_char d.

(** A string that starts with a decimal digit followed by nothing or by
    another decimal digit. *)
Definition decimal_head (s : string) : Prop :=
  match s with
  | EmptyString => False
  | String c r =>
      is_decimal c
      ∧ match r with
        | EmptyString => True
        | String c2 _ => is_decimal c2
        end
  end.

(** ** Sample worlds *)

Definition sample_uuid (n : nat) : string := "uuid-" +:+ pretty n.
Definition sample_clock (n : nat) : Z := 1700000000000 + Z.of_nat n.

(** A fresh installation: empty tables, empty upload directory. *)
Definition empty_world : world :=
  mkworld (mkdb [] [] [] []) ∅ sample_uuid 0 sample_clock 0 [].

(** One post by Bob with an attachment on disk, a comment, and three
    reactions, two of them the same. *)
Definition sample_world : world :=
  mkworld
    (mkdb [Post.mk "P" "Bob" "hi" "" 1000]
          [Media.mk "M" "P" "1000_a.png" "image/png"]
          [Reaction.mk "R1" "P" "like" "A" 1001;
           Reaction.mk "R2" "P" "like" "A" 1002;
           Reaction.mk "R3" "P" "wow" "B" 1003]
          [Comment.mk "C1" "P" "A" "nice" 1004])
    {["1000_a.png"]} sample_uuid 0 sample_clock 0 [].

(** Twenty posts p1 ... p20, created in that order. *)
Definition twenty_posts : list Post.t :=
  (λ n, Post.mk ("p" +:+ pretty n) "Bob" "" "" (Z.of_nat n)) <$> seq 1 20.

Definition feed_world : world :=
  mkworld (mkdb twenty_posts [] [] []) ∅ sample_uuid 0 sample_clock 0 [].

(** An installation in which multer has just stored one uploaded file, and
    the world after the create-post handler has then run for it: one post,
    with id [sample_uuid 0], and its Media row. *)
Definition stored_world : world :=
  mkworld (mkdb [] [] [] []) {["1_x.png"]} sample_uuid 0 sample_clock 0 [].

Definition created_world : world :=
  (post_api_posts (mkform (Some "hi") (Some "Bob") None)
     (Some [File.mk "1_x.png" "image/png"]) stored_world).2.

(** The sample world with a source of ids stuck on one id. *)
Definition stuck_on (id : string) (w : world) : world :=
  mkworld (db w) (uploads w) (λ _, id) (uuid_calls w) (clock w)
          (clock_calls w) (trace w).

(** The sample world with a source of ids that gives a new id first and
    then the id of the Media row that is already there. *)
Definition clashing_world : world :=
  mkworld (db sample_world) (uploads sample_world)
          (λ n, match n with O => "N" | _ => "M" end) 0 sample_clock 0 [].

(** Two posts, each with an attachment on disk, a reaction and a comment. *)
Definition two_posts_world : world :=
  mkworld
    (mkdb [Post.mk "P" "Bob" "hi" "" 1000; Post.mk "Q" "Eve" "yo" "c" 2000]
          [Media.mk "M" "P" "1000_a.png" "image/png";
           Media.mk "N" "Q" "2000_b.png" "image/png"]
          [Reaction.mk "R1" "P" "like" "A" 1001;
           Reaction.mk "R2" "Q" "wow" "B" 2001]
          [Comment.mk "C1" "P" "A" "nice" 1004;
           Comment.mk "C2" "Q" "B" "ok" 2004])
    {["1000_a.png"; "2000_b.png"]} sample_uuid 0 sample_clock 0 [].

(** Another engine: it sorts the table read backwards. *)
Definition sort_reversed : list Post.t → list Post.t :=
  λ l, merge_sort newer_first (reverse l).

(** * Properties *)

(** ** [parseInt] on sample strings *)

Example parseInt_samples :
  parseInt "12" = Num 12 ∧ parseInt "  -7abc" = Num (-7)
  ∧ parseInt "+5" = Num 5 ∧ parseInt "08" = Num 8 ∧ parseInt "1e3" = Num 1
  ∧ parseInt "0x1F" = Num 31 ∧ parseInt "0x" = NaN
  ∧ parseInt "" = NaN ∧ parseInt "abc" = NaN ∧ parseInt "-" = NaN.
Proof. repeat split. Qed.

(** ** The monad *)

Lemma bind_Ok {A B} (m : M A) (k : A → M B) w a w' :
  m w = (Ok a, w') → bind m k w = k a w'.
Proof. intros H. unfold bind. by rewrite H. Qed.

Lemma bind_Throw {A B} (m : M A) (k : A → M B) w e w' :
  m w = (Throw e, w') → bind m k w = (Throw e, w').
Proof. intros H. unfold bind. by rewrite H. Qed.

Lemma try_catch_Ok {A} (m : M A) h w a w' :
  m w = (Ok a, w') → try_catch m h w = (Ok a, w').
Proof. intros H. unfold try_catch. by rewrite H. Qed.

Lemma try_catch_Throw {A} (m : M A) h w e w' :
  m w = (Throw e, w') → try_catch m h w = h e w'.
Proof. intros H. unfold try_catch. by rewrite H. Qed.

(** ** Comments *)

Lemma post_comment_inserts post_id b w :
  default "" (comment_text b) ≠ "" →
  Comment.id (new_comment post_id b w) ∉ Comment.id <$> comments (db w) →
  ∃ w',
    post_api_posts_id_comments post_id b w
    = (Ok (res_json (obj [("success", JBool true);
                          ("id", JStr (uuid_source w (uuid_calls w)))])), w')
    ∧ db w' = with_comments (comments (db w) ++ [new_comment post_id b w]) (db w)
    ∧ uploads w' = uploads w
    ∧ trace w' = trace w ++ [InsertComment (new_comment post_id b w)].
Proof.
  intros Htext Hfresh.
  unfold post_api_posts_id_comments.
  destruct (decide (default "" (comment_text b) = "")) as [|_]; [done|].
  eexists. split.
  - apply try_catch_Ok.
    unfold bind, uuidv4, Date_now, insert_comment, ret. cbn [db uuid_calls].
    destruct (decide _) as [Hin|_]; [by destruct Hfresh|].
    reflexivity.
  - done.
Qed.

(** C1.  An add-comment request whose text is the empty string (or is
    absent, which the handler reads as the empty string) is answered with
    status 400 and the body [{success: false, error: "Texto vazio"}], and
    leaves the world as it was: no row is inserted and the comment count of
    every post is unchanged.  A request with non-empty text, whose generated
    id is not yet a comment id, appends exactly one row to the comments
    table, changes no other table, and is answered [{success: true, id}]. *)
Theorem comment_rejected_or_inserted post_id (b : comment_body) (w : world) :
  (default "" (comment_text b) = "" →
     post_api_posts_id_comments post_id b w
     = (Ok (mkres 400
              (JObj (<["success" := JBool false]>
                       (<["error" := JStr "Texto vazio"]> ∅)))), w))
  ∧ (default "" (comment_text b) ≠ "" →
     uuid_source w (uuid_calls w) ∉ Comment.id <$> comments (db w) →
     ∃ w',
       post_api_posts_id_comments post_id b w
       = (Ok (res_json (obj [("success", JBool true);
                             ("id", JStr (uuid_source w (uuid_calls w)))])), w')
       ∧ post_api_posts_id_comments post_id b w
         = (Ok (mkres 200
                  (JObj (<["success" := JBool true]>
                           (<["id" := JStr (uuid_source w (uuid_calls w))]>
                              ∅)))), w')
       ∧ db w'
         = with_comments (comments (db w) ++ [new_comment post_id b w]) (db w)
       ∧ uploads w' = uploads w).
Proof.
  split.
  - intros Hempty. unfold post_api_posts_id_comments.
    destruct (decide (default "" (comment_text b) = "")) as [_|]; [|done].
    reflexivity.
  - intros Htext Hfresh.
    destruct (post_comment_inserts post_id b w Htext Hfresh)
      as (w' & Hrun & Hdb & Hup & _).
    by exists w'.
Qed.

(** ** Reactions *)

Lemma post_reaction_run post_id b w :
  post_api_posts_id_reactions post_id b w
  = if decide (Reaction.id (new_reaction post_id b w)
               ∈ Reaction.id <$> reactions (db w))
    then log_and_fail (unique_failed "reactions.id")
           (snd (Date_now (snd (uuidv4 w))))
    else (Ok (res_json (obj [("success", JBool true);
                             ("id", JStr (uuid_source w (uuid_calls w)))])),
          record (InsertReaction (new_reaction post_id b w))
            (set_db (with_reactions
                       (reactions (db w) ++ [new_reaction post_id b w]) (db w))
               (snd (Date_now (snd (uuidv4 w)))))).
Proof.
  unfold post_api_posts_id_reactions, try_catch, bind, uuidv4, Date_now,
    insert_reaction, ret.
  cbn [db uuid_calls snd]. unfold new_reaction. cbn [Reaction.id].
  by destruct (decide _).
Qed.

Lemma post_reaction_inserts post_id b w :
  Reaction.id (new_reaction post_id b w) ∉ Reaction.id <$> reactions (db w) →
  ∃ w',
    post_api_posts_id_reactions post_id b w
    = (Ok (res_json (obj [("success", JBool true);
                          ("id", JStr (uuid_source w (uuid_calls w)))])), w')
    ∧ db w'
      = with_reactions (reactions (db w) ++ [new_reaction post_id b w]) (db w)
    ∧ uploads w' = uploads w
    ∧ trace w' = trace w ++ [InsertReaction (new_reaction post_id b w)].
Proof.
  intros Hfresh. rewrite post_reaction_run.
  destruct (decide _) as [|_]; [done|]. by eexists.
Qed.

(** C5.  A successful add-reaction request appends exactly one row to the
    reactions table and leaves every row that was there in place, whatever
    rows already exist for the same post, type and user: the request
    succeeds as soon as the generated id is new.  The row's type is "like"
    and its user "anonymous" when the body leaves them out. *)
Theorem reaction_always_appends post_id (b : reaction_body) (w : world) :
  (∀ r w',
     post_api_posts_id_reactions post_id b w = (Ok r, w') →
     status r = 200 →
     db w'
     = with_reactions (reactions (db w) ++ [new_reaction post_id b w]) (db w)
     ∧ body r = obj [("success", JBool true);
                     ("id", JStr (Reaction.id (new_reaction post_id b w)))])
  ∧ (Reaction.id (new_reaction post_id b w)
       ∉ Reaction.id <$> reactions (db w) →
     ∃ r w', post_api_posts_id_reactions post_id b w = (Ok r, w')
             ∧ status r = 200)
  ∧ (body_type b = None → Reaction.type (new_reaction post_id b w) = "like")
  ∧ (body_user b = None →
     Reaction.user (new_reaction post_id b w) = "anonymous").
Proof.
  split; [|split; [|split]].
  - intros r w'. rewrite post_reaction_run.
    destruct (decide _) as [|_].
    + unfold log_and_fail, bind, console_error, ret. intros [= <- <-].
      cbn. lia.
    + by intros [= <- <-].
  - intros Hfresh.
    destruct (post_reaction_inserts post_id b w Hfresh) as (w' & Hrun & _).
    by eexists _, w'.
  - intros Hty. unfold new_reaction. by rewrite Hty.
  - intros Hus. unfold new_reaction. by rewrite Hus.
Qed.


(** ** Looking a post up *)

Lemma head_filter_absent id (l : list Post.t) :
  id ∉ Post.id <$> l → head (filter (λ p, Post.id p = id) l) = None.
Proof.
  intros Hnot. induction l as [|x l IH]; [done|].
  rewrite fmap_cons, not_elem_of_cons in Hnot. destruct Hnot as [Hne Hnot].
  rewrite filter_cons_False by congruence. by apply IH.
Qed.

Lemma head_filter_present p (l : list Post.t) :
  NoDup (Post.id <$> l) → p ∈ l →
  head (filter (λ x, Post.id x = Post.id p) l) = Some p.
Proof.
  intros Hnd Hin. induction l as [|x l IH]; [by apply elem_of_nil in Hin|].
  rewrite fmap_cons, NoDup_cons in Hnd. destruct Hnd as [Hx Hnd].
  apply elem_of_cons in Hin as [->|Hin].
  - by rewrite filter_cons_True.
  - rewrite filter_cons_False; [by apply IH|].
    intros Heq. apply Hx. rewrite Heq. by apply list_elem_of_fmap_2.
Qed.

Lemma head_filter_appended r (l : list Post.t) :
  Post.id r ∉ Post.id <$> l →
  head (filter (λ x, Post.id x = Post.id r) (l ++ [r])) = Some r.
Proof.
  intros Hnot. induction l as [|x l IH].
  - by rewrite app_nil_l, filter_cons_True.
  - rewrite fmap_cons, not_elem_of_cons in Hnot. destruct Hnot as [Hne Hnot].
    rewrite <- app_comm_cons. rewrite filter_cons_False by congruence. by apply IH.
Qed.

(** A name is none of the listed keys. *)
Ltac key_absent :=
  let H := fresh in
  intros H;
  repeat (apply elem_of_cons in H as [H|H]; [discriminate H|]);
  by apply elem_of_nil in H.

Lemma to_object_lookup p k :
  k ∉ ["id"; "author"; "text"; "community"; "created_at"] →
  Post.to_object p !! k = None.
Proof.
  intros Hk. unfold Post.to_object. apply not_elem_of_list_to_map_1.
  by cbn.
Qed.

Lemma get_post_absent id w :
  id ∉ Post.id <$> posts (db w) →
  get_api_posts_id id w = (Ok (res_status_json 404 (failure "not found")), w).
Proof.
  intros Hnot. unfold get_api_posts_id, try_catch, bind, select_post.
  by rewrite head_filter_absent.
Qed.

(** C7.  Fetching an id that no Post row has is answered with status 404
    and [{success: false, error: "not found"}], a body with no [post]
    property.  Fetching the id of a Post row is answered with status 200
    and [{success: true, post}], where [post] is that row with a [media]
    property added, the list of [{url: "/uploads/" + filename, mime}] over
    the Media rows of the post, and with no [reactions] and no
    [comments_count] property.  Neither case changes the world. *)
Theorem get_one_post id (w : world) :
  (id ∉ Post.id <$> posts (db w) →
     get_api_posts_id id w
     = (Ok (mkres 404
              (JObj (<["success" := JBool false]>
                       (<["error" := JStr "not found"]> ∅)))), w)
     ∧ (<["success" := JBool false]> (<["error" := JStr "not found"]> ∅)
        : gmap string json) !! "post" = None)
  ∧ (∀ p, NoDup (Post.id <$> posts (db w)) → p ∈ posts (db w) →
       Post.id p = id →
       ∃ post,
         get_api_posts_id id w
         = (Ok (mkres 200
                  (JObj (<["success" := JBool true]>
                           (<["post" := JObj post]> ∅)))), w)
         ∧ post
           = <["media" :=
                 JArr ((λ m, obj [("url", JStr ("/uploads/" +:+ Media.filename m));
                                  ("mime", JStr (Media.mime m))])
                         <$> filter (λ m, Media.post_id m = id) (media (db w)))]>
               (Post.to_object p)
         ∧ post !! "reactions" = None
         ∧ post !! "comments_count" = None).
Proof.
  split.
  - intros Hnot. split; [by apply get_post_absent|done].
  - intros p Hnd Hin <-. eexists. split; [|split; [reflexivity|]].
    + unfold get_api_posts_id, try_catch, bind, select_post, select_media, ret.
      by rewrite head_filter_present.
    + split; (rewrite lookup_insert_ne by done; apply to_object_lookup;
              key_absent).
Qed.

(** ** Creating a post *)

(** The loop over the uploaded files, when every generated id is new. *)
Lemma media_loop post_id files : ∀ w,
  let rows := media_rows (uuid_source w) (uuid_calls w) post_id files in
  NoDup (Media.id <$> rows) →
  (∀ r, r ∈ rows → Media.id r ∉ Media.id <$> media (db w)) →
  for_of files (λ f,
    let* media_id := uuidv4 in
    insert_media (Media.mk media_id post_id (File.filename f) (File.mimetype f)))
    w
  = (Ok tt,
     mkworld (with_media (media (db w) ++ rows) (db w)) (uploads w)
       (uuid_source w) (uuid_calls w + length files)%nat (clock w)
       (clock_calls w) (trace w ++ (InsertMedia <$> rows))).
Proof.
  induction files as [|f files IH]; intros w rows Hnd Hfresh.
  - destruct w as [[] ? ? ? ? ? ?]. cbn. unfold ret, with_media. cbn.
    by rewrite !app_nil_r, Nat.add_0_r.
  - subst rows. cbn [media_rows] in *.
    rewrite fmap_cons, NoDup_cons in Hnd. destruct Hnd as [Hhead Hnd].
    cbn [for_of]. unfold bind at 1. unfold bind at 1.
    unfold uuidv4 at 1. unfold insert_media at 1. cbn [db Media.id media].
    destruct (decide _) as [Hin|_].
    { exfalso. eapply Hfresh; [apply list_elem_of_here|exact Hin]. }
    rewrite IH; cbn [db uuid_source uuid_calls with_media media set_db record
                     uploads clock clock_calls trace posts reactions comments].
    + rewrite fmap_cons, <- !app_assoc. cbn [app length].
      by rewrite Nat.add_succ_r.
    + exact Hnd.
    + intros r Hr. rewrite fmap_app, elem_of_app. intros [Hold|Hnew].
      * eapply Hfresh; [by apply list_elem_of_further|exact Hold].
      * cbn in Hnew. apply list_elem_of_singleton in Hnew.
        apply Hhead. cbn [Media.id]. rewrite <- Hnew.
        by apply list_elem_of_fmap_2.
Qed.




(** ** Deleting a post *)

(** The loop over the media of the post: it removes every listed file that
    is there, skips the others, and never throws. *)
Lemma unlink_loop (ms : list Media.t) : ∀ w,
  for_of ms (λ m,
    let* present := existsSync (Media.filename m) in
    if present then unlinkSync (Media.filename m) else ret tt) w
  = (Ok tt,
     mkworld (db w) (uploads w ∖ list_to_set (Media.filename <$> ms))
       (uuid_source w) (uuid_calls w) (clock w) (clock_calls w)
       (trace w ++ (Unlink <$> unlinked (Media.filename <$> ms) (uploads w)))).
Proof.
  induction ms as [|m ms IH]; intros w.
  - destruct w. cbn. unfold ret. cbn.
    rewrite app_nil_r. do 2 f_equal. set_solver.
  - cbn [for_of]. unfold bind at 1. unfold bind at 1.
    unfold existsSync at 1. rewrite fmap_cons. cbn [unlinked].
    destruct (decide (Media.filename m ∈ uploads w)) as [Hin|Hout].
    + rewrite bool_decide_eq_true_2 by done. unfold unlinkSync at 1.
      destruct (decide _) as [_|]; [|done].
      rewrite IH. cbn [db uploads uuid_source uuid_calls clock clock_calls
                         trace record set_uploads].
      rewrite fmap_cons, <- app_assoc. cbn [app]. do 2 f_equal. set_solver.
    + rewrite bool_decide_eq_false_2 by done. unfold ret at 1.
      rewrite IH. do 2 f_equal. set_solver.
Qed.

Lemma delete_run id w :
  ∃ w',
    delete_api_posts_id id w = (Ok (res_json (obj [("success", JBool true)])), w')
    ∧ db w'
      = mkdb (filter (λ p, Post.id p ≠ id) (posts (db w)))
          (filter (λ m, Media.post_id m ≠ id) (media (db w)))
          (filter (λ r, Reaction.post_id r ≠ id) (reactions (db w)))
          (filter (λ c, Comment.post_id c ≠ id) (comments (db w)))
    ∧ uploads w'
      = uploads w
          ∖ list_to_set
              (Media.filename
                 <$> filter (λ m, Media.post_id m = id) (media (db w)))
    ∧ trace w'
      = trace w
          ++ (Unlink
                <$> unlinked
                      (Media.filename
                         <$> filter (λ m, Media.post_id m = id) (media (db w)))
                      (uploads w))
          ++ [DeleteMedia id; DeleteReactions id; DeleteComments id;
              DeletePost id]
    ∧ uuid_source w' = uuid_source w.
Proof.
  eexists. split.
  - unfold delete_api_posts_id. apply try_catch_Ok.
    unfold bind at 1. unfold select_media at 1.
    unfold bind at 1. rewrite unlink_loop.
    unfold bind, delete_media, delete_reactions, delete_comments, delete_post,
      ret.
    reflexivity.
  - cbn [db uploads trace record set_db with_media with_reactions with_comments
           with_posts posts media reactions comments].
    split; [done|]. split; [done|]. split; [|done].
    by rewrite <- !app_assoc.
Qed.




(** ** What leaves the posts table alone *)

Create HintDb keeps discriminated.

Lemma keeps_ret {A} (a : A) : keeps_posts (ret a).
Proof. by intros w. Qed.

Lemma keeps_bind {A B} (m : M A) (k : A → M B) :
  keeps_posts m → (∀ a, keeps_posts (k a)) → keeps_posts (bind m k).
Proof.
  intros Hm Hk w. unfold bind. specialize (Hm w).
  destruct (m w) as [[a|e] w1]; cbn [snd] in *; [|done].
  destruct (Hk a w1) as [-> ->]. exact Hm.
Qed.

Lemma keeps_try_catch {A} (m : M A) (h : string → M A) :
  keeps_posts m → (∀ e, keeps_posts (h e)) → keeps_posts (try_catch m h).
Proof.
  intros Hm Hh w. unfold try_catch. specialize (Hm w).
  destruct (m w) as [[a|e] w1]; cbn [snd] in *; [done|].
  destruct (Hh e w1) as [-> ->]. exact Hm.
Qed.

Lemma keeps_for_of {A} (l : list A) (body : A → M unit) :
  (∀ x, keeps_posts (body x)) → keeps_posts (for_of l body).
Proof.
  intros Hbody. induction l as [|x l IH]; cbn [for_of].
  - apply keeps_ret.
  - apply keeps_bind; [apply Hbody|done].
Qed.

Lemma keeps_map_all {A B} (l : list A) (f : A → M B) :
  (∀ x, keeps_posts (f x)) → keeps_posts (map_all l f).
Proof.
  intros Hf. induction l as [|x l IH]; cbn [map_all].
  - apply keeps_ret.
  - apply keeps_bind; [apply Hf|]. intros y.
    apply keeps_bind; [exact IH|]. intros ys. apply keeps_ret.
Qed.

Lemma keeps_if {A} (b : bool) (m1 m2 : M A) :
  keeps_posts m1 → keeps_posts m2 → keeps_posts (if b then m1 else m2).
Proof. by destruct b. Qed.

Lemma keeps_uuidv4 : keeps_posts uuidv4.
Proof. by intros w. Qed.
Lemma keeps_Date_now : keeps_posts Date_now.
Proof. by intros w. Qed.
Lemma keeps_console_error e : keeps_posts (console_error e).
Proof. by intros w. Qed.
Lemma keeps_insert_media r : keeps_posts (insert_media r).
Proof. intros w. unfold insert_media. by destruct (decide _). Qed.
Lemma keeps_insert_reaction r : keeps_posts (insert_reaction r).
Proof. intros w. unfold insert_reaction. by destruct (decide _). Qed.
Lemma keeps_insert_comment r : keeps_posts (insert_comment r).
Proof. intros w. unfold insert_comment. by destruct (decide _). Qed.
Lemma keeps_select_post id : keeps_posts (select_post id).
Proof. by intros w. Qed.
Lemma keeps_select_media id : keeps_posts (select_media id).
Proof. by intros w. Qed.
Lemma keeps_select_reaction_counts id : keeps_posts (select_reaction_counts id).
Proof. by intros w. Qed.
Lemma keeps_select_comment_count id : keeps_posts (select_comment_count id).
Proof. by intros w. Qed.
Lemma keeps_select_posts_page order l o :
  keeps_posts (select_posts_page order l o).
Proof. intros w. unfold select_posts_page. by destruct l, o. Qed.

#[local] Hint Resolve keeps_ret keeps_uuidv4 keeps_Date_now keeps_console_error
  keeps_insert_media keeps_insert_reaction keeps_insert_comment
  keeps_select_post keeps_select_media keeps_select_reaction_counts
  keeps_select_comment_count keeps_select_posts_page : keeps.

(** Break a handler down to its statements. *)
Ltac keeps_steps :=
  repeat first
    [ solve [auto with keeps]
    | apply keeps_try_catch | apply keeps_bind | apply keeps_for_of
    | apply keeps_map_all | apply keeps_if
    | lazymatch goal with |- ∀ _, _ => intro end ].

Lemma keeps_log_and_fail e : keeps_posts (log_and_fail e).
Proof. unfold log_and_fail. keeps_steps. Qed.

#[local] Hint Resolve keeps_log_and_fail : keeps.

Lemma keeps_attach p : keeps_posts (attach p).
Proof. unfold attach. keeps_steps. Qed.

#[local] Hint Resolve keeps_attach : keeps.

Lemma keeps_get_api_posts order q : keeps_posts (get_api_posts order q).
Proof.
  unfold get_api_posts. destruct (page_limit_offset q) as [[page limit] offset].
  keeps_steps.
Qed.

Lemma keeps_get_api_posts_id id : keeps_posts (get_api_posts_id id).
Proof.
  unfold get_api_posts_id. apply keeps_try_catch; [|keeps_steps].
  apply keeps_bind; [auto with keeps|]. intros [p|]; keeps_steps.
Qed.

Lemma keeps_post_reactions post_id b :
  keeps_posts (post_api_posts_id_reactions post_id b).
Proof. unfold post_api_posts_id_reactions. keeps_steps. Qed.

Lemma keeps_post_comments post_id b :
  keeps_posts (post_api_posts_id_comments post_id b).
Proof.
  unfold post_api_posts_id_comments. apply keeps_try_catch; [|keeps_steps].
  destruct (decide _); keeps_steps.
Qed.

Lemma try_catch_bind {A B} (m : M A) (k : A → M B) h w :
  try_catch (bind m k) h w
  = match m w with
    | (Ok a, w') => try_catch (k a) h w'
    | (Throw e, w') => h e w'
    end.
Proof. unfold try_catch, bind. by destruct (m w) as [[a|e] w']. Qed.

(** The create-post handler adds at most one row to the posts table, and
    its id is a generated one. *)
Lemma create_post_posts form files w :
  uuid_source (post_api_posts form files w).2 = uuid_source w
  ∧ (posts (db (post_api_posts form files w).2) = posts (db w)
     ∨ (Post.id (new_post form w) ∉ Post.id <$> posts (db w))
       ∧ posts (db (post_api_posts form files w).2)
         = posts (db w) ++ [new_post form w]).
Proof.
  remember (post_api_posts form files w) as r eqn:Hr.
  unfold post_api_posts in Hr.
  rewrite try_catch_bind in Hr. unfold uuidv4 at 1 in Hr.
  rewrite try_catch_bind in Hr. unfold Date_now at 1 in Hr.
  cbn [clock clock_calls] in Hr.
  rewrite try_catch_bind in Hr. unfold insert_post at 1 in Hr.
  cbn [db uuid_source uuid_calls Post.id] in Hr.
  destruct (decide _) as [|Hnew].
  - destruct (keeps_log_and_fail (unique_failed "posts.id")
                (Date_now (uuidv4 w).2).2) as [Hp Hu].
    subst r. split; [exact Hu|]. left. exact Hp.
  - match type of Hr with _ = try_catch ?m ?h ?w1 =>
      assert (keeps_posts (try_catch m h)) as Hk by keeps_steps;
      destruct (Hk w1) as [Hp Hu]
    end.
    subst r. split; [exact Hu|]. right. split; [exact Hnew|exact Hp].
Qed.

(** ** Aggregation *)

Lemma set_property_proto k v o :
  set_property k v o !! "__proto__" = o !! "__proto__".
Proof.
  unfold set_property. destruct (decide _) as [|Hne]; [done|].
  by rewrite lookup_insert_ne.
Qed.

Lemma set_property_other k v o t :
  t ≠ k → set_property k v o !! t = o !! t.
Proof.
  intros Hne. unfold set_property. destruct (decide _); [done|].
  by rewrite lookup_insert_ne.
Qed.

Lemma set_property_same k v o :
  k ≠ "__proto__" → set_property k v o !! k = Some v.
Proof.
  intros Hne. unfold set_property. destruct (decide _); [done|].
  by rewrite lookup_insert_eq.
Qed.

Lemma foldl_set_property_proto rows : ∀ acc,
  foldl (λ o r, set_property r.1 (JNum r.2) o) acc rows !! "__proto__"
  = acc !! "__proto__".
Proof.
  induction rows as [|[t c] rows IH]; intros acc; [done|].
  cbn [foldl]. by rewrite IH, set_property_proto.
Qed.

Lemma foldl_set_property_notin (rows : list (string * Z)) t : ∀ acc,
  t ∉ rows.*1 →
  foldl (λ o r, set_property r.1 (JNum r.2) o) acc rows !! t = acc !! t.
Proof.
  induction rows as [|[t' c'] rows IH]; intros acc Hnot; [done|].
  rewrite fmap_cons, not_elem_of_cons in Hnot. destruct Hnot as [Hne Hnot].
  cbn [foldl]. rewrite IH by done. by apply set_property_other.
Qed.

Lemma foldl_set_property_in (rows : list (string * Z)) t c : ∀ acc,
  NoDup rows.*1 → (t, c) ∈ rows → t ≠ "__proto__" →
  foldl (λ o r, set_property r.1 (JNum r.2) o) acc rows !! t = Some (JNum c).
Proof.
  induction rows as [|[t' c'] rows IH]; intros acc Hnd Hin Hne.
  { by apply elem_of_nil in Hin. }
  rewrite fmap_cons, NoDup_cons in Hnd. destruct Hnd as [Hhead Hnd].
  cbn [foldl]. apply elem_of_cons in Hin as [[= <- <-]|Hin].
  - rewrite foldl_set_property_notin by done. by apply set_property_same.
  - by apply IH.
Qed.

Lemma group_count_keys values : (group_count values).*1 = remove_dups values.
Proof.
  unfold group_count. rewrite <- list_fmap_compose.
  by rewrite <- (list_fmap_id (remove_dups values)) at 2.
Qed.

(** The object built from the groups of a list of types maps each type
    that occurs, other than "__proto__", to the number of its occurrences,
    and has no other property. *)
Lemma reaction_object_lookup (values : list string) t :
  reaction_object (group_count values) !! t
  = if decide (t ∈ values ∧ t ≠ "__proto__")
    then Some (JNum (Z.of_nat (length (filter (λ x, x = t) values))))
    else None.
Proof.
  unfold reaction_object. destruct (decide _) as [[Hin Hne]|Hno].
  - apply foldl_set_property_in; [|..|done].
    + rewrite group_count_keys. apply NoDup_remove_dups.
    + unfold group_count. apply list_elem_of_fmap. exists t.
      split; [done|]. by apply elem_of_remove_dups.
  - destruct (decide (t = "__proto__")) as [->|Hne].
    + by rewrite foldl_set_property_proto.
    + rewrite foldl_set_property_notin; [done|].
      rewrite group_count_keys, elem_of_remove_dups. naive_solver.
Qed.

Lemma length_filter_types (rs : list Reaction.t) post_id t :
  length (filter (λ x, x = t)
            (Reaction.type <$> filter (λ r, Reaction.post_id r = post_id) rs))
  = length (filter (λ r, Reaction.post_id r = post_id ∧ Reaction.type r = t) rs).
Proof.
  induction rs as [|r rs IH]; [done|].
  destruct (decide (Reaction.post_id r = post_id)) as [Hp|Hp].
  - rewrite (filter_cons_True (λ r, Reaction.post_id r = post_id)) by done.
    rewrite fmap_cons.
    destruct (decide (Reaction.type r = t)) as [Ht|Ht].
    + rewrite !filter_cons_True by done. cbn. by rewrite IH.
    + rewrite !filter_cons_False by naive_solver. exact IH.
  - rewrite (filter_cons_False (λ r, Reaction.post_id r = post_id)) by done.
    rewrite filter_cons_False by naive_solver. exact IH.
Qed.

Lemma types_of_post (rs : list Reaction.t) post_id t :
  t ∈ Reaction.type <$> filter (λ r, Reaction.post_id r = post_id) rs
  ↔ filter (λ r, Reaction.post_id r = post_id ∧ Reaction.type r = t) rs ≠ [].
Proof.
  rewrite list_elem_of_fmap. split.
  - intros (r & -> & [Hp Hin]%list_elem_of_filter) Hnil.
    assert (r ∈ filter (λ r', Reaction.post_id r' = post_id
                               ∧ Reaction.type r' = Reaction.type r) rs) as Hr
      by (by apply list_elem_of_filter).
    rewrite Hnil in Hr. by apply elem_of_nil in Hr.
  - intros Hne.
    destruct (filter _ rs) as [|r l] eqn:Hf; [done|].
    assert (r ∈ filter (λ r, Reaction.post_id r = post_id
                              ∧ Reaction.type r = t) rs) as Hr
      by (rewrite Hf; apply list_elem_of_here).
    apply list_elem_of_filter in Hr as [[Hp Ht] Hin].
    exists r. split; [done|]. by apply list_elem_of_filter.
Qed.

(** The aggregated fields of the view of a post. *)
Lemma post_view_fields d p :
  property "comments_count" (post_view d p)
  = Some (JNum (Z.of_nat (length (comment_rows d (Post.id p)))))
  ∧ ∃ reactionObj,
      property "reactions" (post_view d p) = Some (JObj reactionObj)
      ∧ ∀ t, reactionObj !! t
             = if decide (reaction_rows d (Post.id p) t ≠ [] ∧ t ≠ "__proto__")
               then Some (JNum (Z.of_nat
                                  (length (reaction_rows d (Post.id p) t))))
               else None.
Proof.
  split.
  - unfold post_view, property. by rewrite lookup_insert_eq.
  - eexists. split.
    + unfold post_view, property. rewrite lookup_insert_ne by done.
      by rewrite lookup_insert_eq.
    + intros t. rewrite reaction_object_lookup. unfold reaction_rows.
      rewrite length_filter_types.
      destruct (decide _) as [[Hin Hne]|Hno];
        destruct (decide _) as [[Hin' Hne']|Hno']; try done.
      * destruct Hno'. split; [|done]. by apply types_of_post.
      * destruct Hno. split; [|done]. by apply types_of_post.
Qed.

(** ** Reasoning along the statements of a handler *)

Lemma preserves_ret {A} I (a : A) : preserves I (ret a).
Proof. by intros w. Qed.

Lemma preserves_bind {A B} I (m : M A) (k : A → M B) :
  preserves I m → (∀ a, preserves I (k a)) → preserves I (bind m k).
Proof.
  intros Hm Hk w Hw. unfold bind. specialize (Hm w Hw).
  destruct (m w) as [[a|e] w1]; cbn [snd] in *; [|done]. by apply Hk.
Qed.

Lemma preserves_try_catch {A} I (m : M A) (h : string → M A) :
  preserves I m → (∀ e, preserves I (h e)) → preserves I (try_catch m h).
Proof.
  intros Hm Hh w Hw. unfold try_catch. specialize (Hm w Hw).
  destruct (m w) as [[a|e] w1]; cbn [snd] in *; [done|]. by apply Hh.
Qed.

Lemma preserves_for_of {A} I (l : list A) (body : A → M unit) :
  (∀ x, preserves I (body x)) → preserves I (for_of l body).
Proof.
  intros Hbody. induction l as [|x l IH]; cbn [for_of].
  - apply preserves_ret.
  - apply preserves_bind; [apply Hbody|done].
Qed.

Lemma preserves_map_all {A B} I (l : list A) (f : A → M B) :
  (∀ x, preserves I (f x)) → preserves I (map_all l f).
Proof.
  intros Hf. induction l as [|x l IH]; cbn [map_all].
  - apply preserves_ret.
  - apply preserves_bind; [apply Hf|]. intros y.
    apply preserves_bind; [exact IH|]. intros ys. apply preserves_ret.
Qed.

(** Split a handler into its statements, and close each statement with
    [tac]. *)
Ltac along_statements tac :=
  repeat lazymatch goal with
    | |- preserves _ (ret _) => apply preserves_ret
    | |- preserves _ (bind _ _) => apply preserves_bind
    | |- preserves _ (try_catch _ _) => apply preserves_try_catch
    | |- preserves _ (for_of _ _) => apply preserves_for_of
    | |- preserves _ (map_all _ _) => apply preserves_map_all
    | |- preserves _ (log_and_fail _) => unfold log_and_fail
    | |- preserves _ (attach _) => unfold attach
    | |- preserves _ (match ?x with _ => _ end) => destruct x
    | |- ∀ _, _ => intro
    | |- preserves _ _ => solve [tac]
    end.

(** A statement that leaves a part of the world as it is. *)
Ltac keeps_part :=
  let w := fresh "w" in
  let Hw := fresh "Hw" in
  intros w Hw;
  unfold uuidv4, Date_now, console_error, insert_post, insert_media,
    insert_reaction, insert_comment, select_post, select_media,
    select_reaction_counts, select_comment_count, select_posts_page,
    delete_media, delete_reactions, delete_comments, delete_post,
    existsSync, unlinkSync;
  repeat case_decide; repeat case_match; exact Hw.

(** A statement that calls [uuidv4()] moves on in the source of ids, and
    no statement moves back. *)
Ltac calls_grow :=
  let w := fresh "w" in
  let Hw := fresh "Hw" in
  intros w Hw;
  unfold uuidv4, Date_now, console_error, insert_post, insert_media,
    insert_reaction, insert_comment, select_post, select_media,
    select_reaction_counts, select_comment_count, select_posts_page,
    delete_media, delete_reactions, delete_comments, delete_post,
    existsSync, unlinkSync;
  repeat case_decide; repeat case_match;
  cbn [snd uuid_calls record set_db set_uploads]; lia.

(** No request takes back a call of [uuidv4()], and none changes the
    source of ids. *)
Lemma app_calls_grow order r (n : nat) :
  preserves (λ w, (n ≤ uuid_calls w)%nat) (app order r).
Proof.
  destruct r as [form files|q|id|id|post_id b|post_id b]; cbn [app].
  - unfold post_api_posts. along_statements calls_grow.
  - unfold get_api_posts. along_statements calls_grow.
  - unfold get_api_posts_id. along_statements calls_grow.
  - unfold delete_api_posts_id. along_statements calls_grow.
  - unfold post_api_posts_id_reactions. along_statements calls_grow.
  - unfold post_api_posts_id_comments. along_statements calls_grow.
Qed.

Lemma app_keeps_source order r (source : nat → string) :
  preserves (λ w, uuid_source w = source) (app order r).
Proof.
  destruct r as [form files|q|id|id|post_id b|post_id b]; cbn [app].
  - unfold post_api_posts. along_statements keeps_part.
  - unfold get_api_posts. along_statements keeps_part.
  - unfold get_api_posts_id. along_statements keeps_part.
  - unfold delete_api_posts_id. along_statements keeps_part.
  - unfold post_api_posts_id_reactions. along_statements keeps_part.
  - unfold post_api_posts_id_comments. along_statements keeps_part.
Qed.

(** ** A deleted id stays absent *)

(** No request brings back a post id that the source of ids does not
    produce from now on. *)
Lemma app_keeps_absent order id r w :
  (∀ n, (uuid_calls w ≤ n)%nat → uuid_source w n ≠ id) →
  id ∉ Post.id <$> posts (db w) →
  (∀ n, (uuid_calls (app order r w).2 ≤ n)%nat →
        uuid_source (app order r w).2 n ≠ id)
  ∧ id ∉ Post.id <$> posts (db (app order r w).2).
Proof.
  intros Hsrc Hnot. split.
  - intros n Hn.
    rewrite (app_keeps_source order r (uuid_source w) w eq_refl).
    apply Hsrc. etrans; [|exact Hn].
    by apply (app_calls_grow order r (uuid_calls w) w).
  - assert (∀ m : M response, keeps_posts m →
              id ∉ Post.id <$> posts (db (m w).2)) as Hkeeps.
    { intros m Hm. by destruct (Hm w) as [-> _]. }
    destruct r as [form files|q|id'|id'|post_id b|post_id b]; cbn [app].
    + destruct (create_post_posts form files w) as [_ [->|[_ ->]]]; [done|].
      rewrite fmap_app, elem_of_app.
      intros [Hold|Hnew%list_elem_of_singleton]; [done|].
      by apply (Hsrc (uuid_calls w)).
    + apply Hkeeps, keeps_get_api_posts.
    + apply Hkeeps, keeps_get_api_posts_id.
    + destruct (delete_run id' w) as (w' & Hrun & Hdb & _).
      rewrite Hrun. cbn [snd]. rewrite Hdb. cbn [posts].
      intros (p & Hid & [_ Hin]%list_elem_of_filter)%list_elem_of_fmap.
      apply Hnot. rewrite Hid. by apply list_elem_of_fmap_2.
    + apply Hkeeps, keeps_post_reactions.
    + apply Hkeeps, keeps_post_comments.
Qed.

Lemma serve_keeps_absent order id rs : ∀ w,
  (∀ n, (uuid_calls w ≤ n)%nat → uuid_source w n ≠ id) →
  id ∉ Post.id <$> posts (db w) →
  id ∉ Post.id <$> posts (db (serve order rs w)).
Proof.
  induction rs as [|r rs IH]; intros w Hsrc Hnot; [done|].
  cbn [serve]. destruct (app_keeps_absent order id r w Hsrc Hnot).
  by apply IH.
Qed.

(** ** The primary key of the posts table *)

(** No request makes two Post rows share an id; a world reached from an
    empty posts table has none. *)
Lemma app_keeps_primary_key order r w :
  NoDup (Post.id <$> posts (db w)) →
  NoDup (Post.id <$> posts (db (app order r w).2)).
Proof.
  intros Hnd.
  assert (∀ m : M response, keeps_posts m →
            NoDup (Post.id <$> posts (db (m w).2))) as Hkeeps.
  { intros m Hm. by destruct (Hm w) as [-> _]. }
  destruct r as [form files|q|id'|id'|post_id b|post_id b]; cbn [app].
  - destruct (create_post_posts form files w) as [_ [->|[Hnew ->]]]; [done|].
    rewrite fmap_app. apply NoDup_app. split; [done|]. split.
    + intros x Hx ->%list_elem_of_singleton. by apply Hnew.
    + apply NoDup_singleton.
  - apply Hkeeps, keeps_get_api_posts.
  - apply Hkeeps, keeps_get_api_posts_id.
  - destruct (delete_run id' w) as (w' & Hrun & Hdb & _).
    rewrite Hrun. cbn [snd]. rewrite Hdb. cbn [posts].
    eapply sublist_NoDup; [exact Hnd|].
    apply fmap_sublist, sublist_filter.
  - apply Hkeeps, keeps_post_reactions.
  - apply Hkeeps, keeps_post_comments.
Qed.

Lemma serve_keeps_primary_key order rs : ∀ w,
  NoDup (Post.id <$> posts (db w)) →
  NoDup (Post.id <$> posts (db (serve order rs w))).
Proof.
  induction rs as [|r rs IH]; intros w Hnd; [done|].
  cbn [serve]. by apply IH, app_keeps_primary_key.
Qed.

(** ** The feed *)

Lemma attach_run p w : attach p w = (Ok (post_view (db w) p), w).
Proof. reflexivity. Qed.

Lemma map_all_pure {A B} (f : A → M B) (g : A → B) w (l : list A) :
  (∀ x, f x w = (Ok (g x), w)) → map_all l f w = (Ok (g <$> l), w).
Proof.
  intros Hf. induction l as [|x l IH]; [done|].
  cbn [map_all]. unfold bind at 1. rewrite Hf.
  unfold bind at 1. by rewrite IH.
Qed.

Lemma elem_of_limit_offset {A} (limit offset : Z) (rows : list A) x :
  x ∈ limit_offset limit offset rows → x ∈ rows.
Proof.
  unfold limit_offset. destruct (limit <? 0).
  - apply subseteq_drop.
  - intros Hx. eapply subseteq_drop, subseteq_take, Hx.
Qed.

Lemma post_view_id d p : property "id" (post_view d p) = Some (JStr (Post.id p)).
Proof. unfold post_view, property. by rewrite !lookup_insert_ne. Qed.

Lemma body_posts_failure message : body_posts (failure message) = [].
Proof. reflexivity. Qed.

Lemma page_limit_offset_num q p l :
  parseInt (or_default (query_page q) "1") = Num p →
  parseInt (or_default (query_limit q) "8") = Num l →
  page_limit_offset q
  = (Num (Z.max 1 p), Num (Z.min 50 l), Num ((Z.max 1 p - 1) * Z.min 50 l)).
Proof. intros Hp Hl. unfold page_limit_offset. by rewrite Hp, Hl. Qed.

#[global] Instance newer_first_trans : Transitive newer_first.
Proof. unfold newer_first. intros a b c. lia. Qed.

#[global] Instance newer_first_total : Total newer_first.
Proof. unfold newer_first. intros a b. lia. Qed.


Section FeedProperties.
Variable order : list Post.t → list Post.t.
Hypothesis order_sorted : ∀ l, Sorted newer_first (order l).
Hypothesis order_perm : ∀ l, order l ≡ₚ l.

(** The list handler, by cases on its parameters. *)
Lemma get_api_posts_run q w :
  get_api_posts order q w
  = match page_limit_offset q with
    | (page, Num l, Num o) =>
        (Ok (res_json
               (obj [("success", JBool true); ("page", json_of_num page);
                     ("limit", JNum l);
                     ("posts",
                      JArr (post_view (db w)
                              <$> limit_offset l o (order (posts (db w)))))])),
         w)
    | _ => log_and_fail "SQLITE_MISMATCH: datatype mismatch" w
    end.
Proof.
  unfold get_api_posts, try_catch.
  destruct (page_limit_offset q) as [[page limit] offset].
  unfold bind at 1. unfold select_posts_page.
  destruct limit as [|l]; [done|]. destruct offset as [|o]; [done|].
  unfold bind at 1. by rewrite (map_all_pure _ _ _ _ (λ p, attach_run p w)).
Qed.

(** Every post of a list response is the view of a row of the posts
    table. *)
Lemma listed_posts_are_rows q w r w' j :
  get_api_posts order q w = (Ok r, w') →
  j ∈ body_posts (body r) →
  ∃ p, p ∈ posts (db w) ∧ j = post_view (db w) p.
Proof.
  rewrite get_api_posts_run.
  destruct (page_limit_offset q) as [[page [|l]] [|o]];
    try (unfold log_and_fail, bind, console_error, ret; intros [= <- <-];
         unfold res_status_json; cbn [body]; rewrite body_posts_failure;
         by intros ?%elem_of_nil).
  intros [= <- <-]. change (body_posts _) with
    (post_view (db w) <$> limit_offset l o (order (posts (db w)))).
  intros (p & -> & Hp)%list_elem_of_fmap. exists p. split; [|done].
  apply elem_of_limit_offset in Hp. by rewrite order_perm in Hp.
Qed.

(** C2, as the code has it.  An absent or empty page parameter is read as
    page 1, and an absent or empty limit parameter as limit 8.  When the
    page and limit parameters (with "1" and "8" standing in for an absent or
    empty one) start with an integer, the limit not negative, of a magnitude
    that JavaScript represents exactly, the effective page is the larger of
    1 and the requested page, the effective limit the smaller of 50 and the
    requested limit, and the response, with status 200, carries that page,
    that limit and the views of the limit posts that follow the first
    (page - 1) * limit posts of the ordered table.  So the page is at least
    1 and the limit lies between 0 and 50: a limit above 50 becomes 50, a
    limit from 1 to 50 is kept, and a limit of 0 stays 0. *)
Theorem list_parameters (q : list_query) (w : world) :
  (query_page q = None ∨ query_page q = Some "" →
   ∃ limit offset, page_limit_offset q = (Num 1, limit, offset))
  ∧ (query_limit q = None ∨ query_limit q = Some "" →
     ∃ page offset, page_limit_offset q = (page, Num 8, offset))
  ∧ ∀ p l : Z,
      parseInt (or_default (query_page q) "1") = Num p →
      parseInt (or_default (query_limit q) "8") = Num l →
      0 ≤ l →
      Z.abs p ≤ MAX_SAFE_INTEGER →
      l ≤ MAX_SAFE_INTEGER →
      (Z.max 1 p - 1) * Z.min 50 l ≤ MAX_SAFE_INTEGER →
      page_limit_offset q
      = (Num (Z.max 1 p), Num (Z.min 50 l),
         Num ((Z.max 1 p - 1) * Z.min 50 l))
      ∧ 1 ≤ Z.max 1 p
      ∧ 0 ≤ Z.min 50 l ≤ 50
      ∧ (50 ≤ l → Z.min 50 l = 50)
      ∧ (l ≤ 50 → Z.min 50 l = l)
      ∧ 0 ≤ (Z.max 1 p - 1) * Z.min 50 l
      ∧ get_api_posts order q w
        = (Ok (mkres 200
                 (JObj
                    (<["success" := JBool true]>
                       (<["page" := JNum (Z.max 1 p)]>
                          (<["limit" := JNum (Z.min 50 l)]>
                             (<["posts" :=
                                  JArr
                                    (post_view (db w)
                                       <$> take (Z.to_nat (Z.min 50 l))
                                             (drop
                                                (Z.to_nat
                                                   ((Z.max 1 p - 1)
                                                    * Z.min 50 l))
                                                (order (posts (db w)))))]>
                                ∅)))))),
           w).
Proof.
  split; [|split].
  - intros [Hpage|Hpage]; unfold page_limit_offset; rewrite Hpage;
      by eexists _, _.
  - intros [Hlimit|Hlimit]; unfold page_limit_offset; rewrite Hlimit;
      by eexists _, _.
  - intros p l Hp Hl Hl0 _ _ _.
    pose proof (page_limit_offset_num q p l Hp Hl) as Hplo.
    split; [exact Hplo|]. repeat split; try lia; try nia.
    rewrite get_api_posts_run, Hplo. cbn [json_of_num]. unfold limit_offset.
    by destruct (Z.ltb_spec (Z.min 50 l) 0); [lia|].
Qed.



(** Every post of a list response carries the id of a row of the posts
    table, the count of that post's Comment rows as [comments_count], and
    as [reactions] an object that maps each type other than "__proto__"
    with at least one Reaction row of the post to the number of those rows,
    and has no other property. *)
Lemma listed_post_aggregates q w r w' j :
  get_api_posts order q w = (Ok r, w') →
  j ∈ body_posts (body r) →
  ∃ p reactionObj,
    p ∈ posts (db w)
    ∧ property "id" j = Some (JStr (Post.id p))
    ∧ property "comments_count" j
      = Some (JNum (Z.of_nat (length (comment_rows (db w) (Post.id p)))))
    ∧ property "reactions" j = Some (JObj reactionObj)
    ∧ ∀ t, reactionObj !! t
           = if decide (reaction_rows (db w) (Post.id p) t ≠ []
                        ∧ t ≠ "__proto__")
             then Some (JNum (Z.of_nat
                                (length (reaction_rows (db w) (Post.id p) t))))
             else None.
Proof.
  intros Hrun Hj.
  destruct (listed_posts_are_rows q w r w' j Hrun Hj) as (p & Hp & ->).
  destruct (post_view_fields (db w) p) as (Hcc & robj & Hr & Hlookup).
  exists p, robj. by rewrite post_view_id.
Qed.

(** A list response shows no post whose id is absent from the posts
    table. *)
Lemma absent_post_not_listed id q w r w' j :
  id ∉ Post.id <$> posts (db w) →
  get_api_posts order q w = (Ok r, w') →
  j ∈ body_posts (body r) →
  property "id" j ≠ Some (JStr id).
Proof.
  intros Hnot Hrun Hj.
  destruct (listed_posts_are_rows q w r w' j Hrun Hj) as (p & Hp & ->).
  rewrite post_view_id. intros [= <-].
  apply Hnot. by apply list_elem_of_fmap_2.
Qed.

(** C6.  A delete-post request on id P is answered [{success: true}] with
    status 200, whether or not the files of the post are still on disk.
    Its writes are, in this order: the removal of each file of a Media row
    of P that is present in the upload directory, the deletion of the Media
    rows of P, of its Reaction rows, of its Comment rows, and of the Post
    row.  Afterwards no file of P is in the upload directory, no Media,
    Reaction or Comment row refers to P and no Post row has id P, while the
    rows of other posts are all kept.  From then on, after any sequence of
    requests, as long as no id generated from then on repeats P, fetching P
    is answered 404 and no list response contains a post with id P. *)
Theorem delete_post_cascades id (w : world) :
  ∃ w',
    delete_api_posts_id id w
    = (Ok (res_json (obj [("success", JBool true)])), w')
    ∧ trace w'
      = trace w
          ++ (Unlink
                <$> unlinked
                      (Media.filename
                         <$> filter (λ m, Media.post_id m = id) (media (db w)))
                      (uploads w))
          ++ [DeleteMedia id; DeleteReactions id; DeleteComments id;
              DeletePost id]
    ∧ (∀ m, m ∈ media (db w) → Media.post_id m = id →
            Media.filename m ∉ uploads w')
    ∧ db w'
      = mkdb (filter (λ p, Post.id p ≠ id) (posts (db w)))
          (filter (λ m, Media.post_id m ≠ id) (media (db w)))
          (filter (λ r, Reaction.post_id r ≠ id) (reactions (db w)))
          (filter (λ c, Comment.post_id c ≠ id) (comments (db w)))
    ∧ (id ∉ Post.id <$> posts (db w'))
    ∧ (id ∉ Media.post_id <$> media (db w'))
    ∧ (id ∉ Reaction.post_id <$> reactions (db w'))
    ∧ (id ∉ Comment.post_id <$> comments (db w'))
    ∧ ∀ later : list request,
        (∀ n, (uuid_calls w ≤ n)%nat → uuid_source w n ≠ id) →
        get_api_posts_id id (serve order later w')
        = (Ok (mkres 404
                 (JObj (<["success" := JBool false]>
                          (<["error" := JStr "not found"]> ∅)))),
           serve order later w')
        ∧ ∀ q r w'' j,
            get_api_posts order q (serve order later w') = (Ok r, w'') →
            j ∈ body_posts (body r) →
            property "id" j ≠ Some (JStr id).
Proof.
  destruct (delete_run id w) as (w' & Hrun & Hdb & Hup & Htrace & Hsrc).
  assert (∀ {A} (f : A → string) (l : list A),
            id ∉ f <$> filter (λ x, f x ≠ id) l) as Hgone.
  { intros A f l (x & Hid & [Hne _]%list_elem_of_filter)%list_elem_of_fmap.
    by apply Hne. }
  exists w'. split; [exact Hrun|]. split; [exact Htrace|]. split.
  { intros m Hin Hid. rewrite Hup. apply not_elem_of_difference. right.
    apply elem_of_list_to_set, list_elem_of_fmap_2.
    by apply list_elem_of_filter. }
  split; [exact Hdb|]. rewrite Hdb. cbn [posts media reactions comments].
  do 4 (split; [apply Hgone|]).
  intros later Hnever.
  assert (id ∉ Post.id <$> posts (db (serve order later w'))) as Habsent.
  { apply serve_keeps_absent; [|rewrite Hdb; apply Hgone].
    intros n Hn. rewrite Hsrc. apply Hnever. etrans; [|exact Hn].
    pose proof (app_calls_grow order (RemovePost id) (uuid_calls w) w
                  (le_n _)) as Hcalls.
    cbn [app] in Hcalls. by rewrite Hrun in Hcalls. }
  split; [by apply get_post_absent|].
  intros q r w'' j. by apply absent_post_not_listed.
Qed.

End FeedProperties.

(** * The properties at sample requests *)

Lemma sort_newer_first_sorted l : Sorted newer_first (sort_newer_first l).
Proof. apply Sorted_merge_sort, _. Qed.

Lemma sort_newer_first_perm l : sort_newer_first l ≡ₚ l.
Proof. apply merge_sort_Permutation. Qed.

(** An empty comment on the sample post is refused and changes nothing; a
    comment "nice" is inserted. *)
Lemma comment_rejected_or_inserted_sample :
  post_api_posts_id_comments "P" (mkcomment_body (Some "A") (Some ""))
    sample_world
  = (Ok (mkres 400
           (JObj (<["success" := JBool false]>
                    (<["error" := JStr "Texto vazio"]> ∅)))), sample_world)
  ∧ ∃ w',
      post_api_posts_id_comments "P" (mkcomment_body (Some "A") (Some "nice"))
        sample_world
      = (Ok (mkres 200
               (JObj (<["success" := JBool true]>
                        (<["id" := JStr "uuid-0"]> ∅)))), w')
      ∧ comments (db w')
        = [Comment.mk "C1" "P" "A" "nice" 1004;
           Comment.mk (sample_uuid 0) "P" "A" "nice" (sample_clock 0)].
Proof.
  split.
  - apply (proj1 (comment_rejected_or_inserted "P"
                    (mkcomment_body (Some "A") (Some "")) sample_world)).
    reflexivity.
  - destruct (proj2 (comment_rejected_or_inserted "P"
                       (mkcomment_body (Some "A") (Some "nice")) sample_world))
      as (w' & _ & Hrun & Hdb & _); [done|compute_done|].
    exists w'. split; [exact Hrun|]. by rewrite Hdb.
Defined.

(** A third "like" of the same user on the sample post is appended. *)
Lemma reaction_always_appends_sample :
  ∃ r w',
    post_api_posts_id_reactions "P" (mkreaction_body (Some "like") (Some "A"))
      sample_world = (Ok r, w')
    ∧ status r = 200
    ∧ reactions (db w')
      = reactions (db sample_world)
          ++ [Reaction.mk (sample_uuid 0) "P" "like" "A" (sample_clock 0)].
Proof.
  destruct (reaction_always_appends "P"
              (mkreaction_body (Some "like") (Some "A")) sample_world)
    as (Hrows & Hok & _).
  destruct Hok as (r & w' & Hrun & Hstatus); [compute_done|].
  destruct (Hrows r w' Hrun Hstatus) as [Hdb _].
  exists r, w'. split; [exact Hrun|]. split; [exact Hstatus|]. by rewrite Hdb.
Defined.


(** Fetching an unknown id, and the sample post. *)
Lemma get_one_post_sample :
  get_api_posts_id "nobody" sample_world
  = (Ok (mkres 404
           (JObj (<["success" := JBool false]>
                    (<["error" := JStr "not found"]> ∅)))), sample_world)
  ∧ get_api_posts_id "P" sample_world
    = (Ok (mkres 200
             (JObj
                (<["success" := JBool true]>
                   (<["post" :=
                        JObj
                          (<["id" := JStr "P"]>
                             (<["author" := JStr "Bob"]>
                                (<["text" := JStr "hi"]>
                                   (<["community" := JStr ""]>
                                      (<["created_at" := JNum 1000]>
                                         (<["media" :=
                                              JArr
                                                [JObj
                                                   (<["url" :=
                                                        JStr "/uploads/1000_a.png"]>
                                                      (<["mime" :=
                                                           JStr "image/png"]>
                                                         ∅))]]>
                                            ∅))))))]>
                      ∅)))),
       sample_world).
Proof.
  destruct (get_one_post "nobody" sample_world) as [Habsent _].
  destruct (get_one_post "P" sample_world) as [_ Hpresent].
  split.
  - apply Habsent. compute_done.
  - destruct (Hpresent (Post.mk "P" "Bob" "hi" "" 1000))
      as (post & Hrun & -> & _);
      [compute_done|apply list_elem_of_here|done|].
    exact Hrun.
Defined.



(** A limit of 0 stays 0: it is not raised to 1, and the page is empty. *)
Lemma limit_zero_not_raised :
  ¬ page_and_limit_in_range (mkquery None (Some "0"))
  ∧ get_api_posts sort_newer_first (mkquery None (Some "0")) sample_world
    = (Ok (res_json (obj [("success", JBool true); ("page", JNum 1);
                          ("limit", JNum 0); ("posts", JArr [])])),
       sample_world).
Proof.
  split; [|reflexivity].
  intros (p & l & Heq & _ & Hl & _).
  change (page_limit_offset (mkquery None (Some "0")))
    with (Num 1, Num 0, Num 0) in Heq.
  injection Heq as _ <- _. lia.
Qed.

(** Page 0 and limit 100: page 1, limit 50, offset 0, and the whole
    sample table as first page.  Absent and empty parameters: page 1,
    limit 8.  Page 3 and limit 0: limit 0. *)
Lemma list_parameters_sample :
  page_limit_offset (mkquery (Some "0") (Some "100")) = (Num 1, Num 50, Num 0)
  ∧ page_limit_offset (mkquery None None) = (Num 1, Num 8, Num 0)
  ∧ page_limit_offset (mkquery (Some "") (Some "")) = (Num 1, Num 8, Num 0)
  ∧ page_limit_offset (mkquery (Some "3") (Some "0")) = (Num 3, Num 0, Num 0)
  ∧ get_api_posts sort_newer_first (mkquery (Some "0") (Some "100"))
      sample_world
    = (Ok (mkres 200
             (JObj
                (<["success" := JBool true]>
                   (<["page" := JNum 1]>
                      (<["limit" := JNum 50]>
                         (<["posts" :=
                              JArr (post_view (db sample_world)
                                      <$> posts (db sample_world))]>
                            ∅)))))),
       sample_world).
Proof.
  destruct (list_parameters sort_newer_first (mkquery (Some "0") (Some "100"))
              sample_world) as (_ & _ & Hnum).
  destruct (Hnum 0 100) as (Hplo & _ & _ & _ & _ & _ & Hrun);
    [done|done|done|done|done|done|].
  destruct (list_parameters sort_newer_first (mkquery None None) sample_world)
    as (_ & _ & Habsent).
  destruct (Habsent 1 8) as (Hdefault & _); [done|done|done|done|done|done|].
  destruct (list_parameters sort_newer_first (mkquery (Some "") (Some ""))
              sample_world) as (_ & _ & Hempty).
  destruct (Hempty 1 8) as (Hblank & _); [done|done|done|done|done|done|].
  destruct (list_parameters sort_newer_first (mkquery (Some "3") (Some "0"))
              sample_world) as (_ & _ & Hzero).
  destruct (Hzero 3 0) as (Hnone & _); [done|done|done|done|done|done|].
  split; [exact Hplo|]. split; [exact Hdefault|]. split; [exact Hblank|].
  split; [exact Hnone|]. exact Hrun.
Defined.


(** C4, where the code falls short of it.  After a reaction of type
    "__proto__" on the sample post, that post has one Reaction row of that
    type, and the list response gives the post with [comments_count] 1 and
    with the reactions [{like: 2, wow: 1}]: the key "__proto__" is missing,
    where the specification has it mapped to 1. *)
Theorem proto_reactions_not_aggregated :
  let w :=
    (post_api_posts_id_reactions "P" (mkreaction_body (Some "__proto__") None)
       sample_world).2 in
  length (reaction_rows (db w) "P" "__proto__") = 1%nat
  ∧ ∃ j reactionObj,
      body_posts
        (response_body (get_api_posts sort_newer_first (mkquery None None) w).1)
      = [j]
      ∧ property "id" j = Some (JStr "P")
      ∧ property "comments_count" j = Some (JNum 1)
      ∧ property "reactions" j = Some (JObj reactionObj)
      ∧ reactionObj = {["like" := JNum 2; "wow" := JNum 1]}
      ∧ reactionObj !! "__proto__" = None.
Proof.
  split; [reflexivity|]. eexists _, _.
  split; [vm_compute; reflexivity|].
  repeat split; vm_compute; reflexivity.
Qed.

(** Deleting a post that the create-post handler inserted: its file and
    rows are gone, and fetching it afterwards, also after a comment on its
    id and the creation of another post, is answered 404. *)
Lemma delete_post_cascades_sample :
  ∃ w',
    delete_api_posts_id (sample_uuid 0) created_world
    = (Ok (mkres 200 (JObj (<["success" := JBool true]> ∅))), w')
    ∧ trace w'
      = trace created_world
          ++ [Unlink "1_x.png"; DeleteMedia (sample_uuid 0);
              DeleteReactions (sample_uuid 0); DeleteComments (sample_uuid 0);
              DeletePost (sample_uuid 0)]
    ∧ db w' = mkdb [] [] [] []
    ∧ uploads w' = ∅
    ∧ (get_api_posts_id (sample_uuid 0)
         (serve sort_newer_first
            [AddComment (sample_uuid 0)
               (mkcomment_body None (Some "still there?"));
             CreatePost (mkform (Some "next") None None) None] w')).1
      = Ok (mkres 404
              (JObj (<["success" := JBool false]>
                       (<["error" := JStr "not found"]> ∅)))).
Proof.
  destruct (delete_post_cascades sort_newer_first sort_newer_first_perm
              (sample_uuid 0) created_world)
    as (w' & Hrun & Htrace & _ & Hdb & _ & _ & _ & _ & Hlater).
  exists w'. split; [exact Hrun|]. split; [by rewrite Htrace|].
  split; [by rewrite Hdb|]. split.
  - injection Hrun as <-. compute_done.
  - destruct (Hlater
                [AddComment (sample_uuid 0)
                   (mkcomment_body None (Some "still there?"));
                 CreatePost (mkform (Some "next") None None) None])
      as [-> _]; [|done].
    intros n Hn Heq.
    change (uuid_source created_world) with sample_uuid in Heq.
    change (uuid_calls created_world) with 2%nat in Hn.
    unfold sample_uuid in Heq. injection Heq as Heq.
    change (pretty n = pretty 0%nat) in Heq.
    apply (inj pretty) in Heq. lia.
Defined.

(** ** List parameters that are not positive integers *)

(** A page that does not start with a number is NaN, which the store
    refuses: the request is answered 500. *)
Example page_not_a_number :
  page_limit_offset (mkquery (Some "abc") None) = (NaN, Num 8, NaN)
  ∧ (get_api_posts sort_newer_first (mkquery (Some "abc") None) sample_world).1
    = Ok (res_status_json 500 (failure "SQLITE_MISMATCH: datatype mismatch")).
Proof. split; reflexivity. Qed.

(** A negative limit is passed on as it is, and SQLite reads it as no
    limit: all twenty posts are listed. *)
Example negative_limit_lists_all :
  page_limit_offset (mkquery None (Some "-1")) = (Num 1, Num (-1), Num 0)
  ∧ length
      (body_posts
         (response_body
            (get_api_posts sort_newer_first (mkquery None (Some "-1"))
               feed_world).1))
    = 20%nat.
Proof. split; vm_compute; reflexivity. Qed.

(** ** A session from a fresh installation *)

(** Bob posts "hi"; A comments on it; it is liked twice.  The feed then
    shows the post with one comment and [{like: 2}]; once the post is
    deleted, fetching it is answered 404. *)
Example session :
  let P := sample_uuid 0 in
  let w :=
    serve sort_newer_first
      [CreatePost (mkform (Some "hi") (Some "Bob") None) None;
       AddComment P (mkcomment_body (Some "A") (Some "nice"));
       AddReaction P (mkreaction_body (Some "like") None);
       AddReaction P (mkreaction_body (Some "like") None)]
      empty_world in
  body_posts
    (response_body (get_api_posts sort_newer_first (mkquery None None) w).1)
  = [obj [("id", JStr P); ("author", JStr "Bob"); ("text", JStr "hi");
          ("community", JStr ""); ("created_at", JNum (sample_clock 0));
          ("media", JArr []); ("reactions", obj [("like", JNum 2)]);
          ("comments_count", JNum 1)]]
  ∧ (get_api_posts_id P (serve sort_newer_first [RemovePost P] w)).1
    = Ok (res_status_json 404 (failure "not found")).
Proof. split; vm_compute; reflexivity. Qed.

(** * Further properties of the handlers *)

(** ** Reasoning about what a handler returns *)

Lemma returns_ret {A} (P : A → Prop) a : P a → returns P (ret a).
Proof. intros Ha w a' w' [= <- _]. exact Ha. Qed.

Lemma returns_bind {A B} (P : B → Prop) (m : M A) (k : A → M B) :
  (∀ a, returns P (k a)) → returns P (bind m k).
Proof.
  intros Hk w b w'. unfold bind. destruct (m w) as [[a|e] w1]; [|done].
  apply Hk.
Qed.

(** A [try]/[catch] whose [catch] block answers always answers. *)
Lemma try_catch_answers {A} (P : A → Prop) (m : M A) (h : string → M A) :
  returns P m →
  (∀ e w, ∃ a w', h e w = (Ok a, w') ∧ P a) →
  ∀ w, ∃ a w', try_catch m h w = (Ok a, w') ∧ P a.
Proof.
  intros Hm Hh w. unfold try_catch.
  destruct (m w) as [[a|e] w1] eqn:Hrun; [|apply Hh].
  exists a, w1. split; [done|]. by eapply Hm.
Qed.

Lemma envelope_success j :
  property "success" j = Some (JBool true) → envelope (res_json j).
Proof. intros Hj. split; [apply list_elem_of_here|exact Hj]. Qed.

Lemma envelope_failure s message :
  s ∈ [400; 404; 500] → envelope (res_status_json s (failure message)).
Proof.
  intros Hs. split; [by apply list_elem_of_further|].
  cbn [status body res_status_json].
  rewrite bool_decide_eq_false_2; [done|].
  intros ->. rewrite !elem_of_cons, elem_of_nil in Hs. lia.
Qed.

Lemma log_and_fail_answers e w :
  ∃ r w', log_and_fail e w = (Ok r, w') ∧ envelope r.
Proof.
  eexists _, _. split; [reflexivity|]. apply envelope_failure.
  do 2 apply list_elem_of_further. apply list_elem_of_here.
Qed.

(** X1.  Every request that reaches its handler is answered by it: once
    the middleware has parsed the request and let it through (multer lets
    through at most [MAX_FILES] files), the handler lets no exception
    escape.  Its answer has status 200, 400, 404 or 500 and a JSON object as
    body whose [success] property is true exactly when the status is 200.
    (A request that the middleware refuses, such as an upload of seven
    files or a body that is not JSON, never reaches a handler and is
    answered by Express itself.) *)
Theorem every_request_is_answered order (r : request) (w : world) :
  reaches_handler r →
  ∃ resp w', app order r w = (Ok resp, w') ∧ envelope resp.
Proof.
  intros _.
  destruct r as [form files|q|id|id|post_id b|post_id b]; cbn [app].
  - apply try_catch_answers; [|apply log_and_fail_answers].
    do 4 (apply returns_bind; intros ?). apply returns_bind. intros post.
    apply returns_ret, envelope_success.
    unfold property. destruct post as [p|];
      cbn [with_optional fmap option_fmap option_map].
    + by rewrite lookup_insert_ne.
    + done.
  - unfold get_api_posts.
    destruct (page_limit_offset q) as [[page limit] offset].
    apply try_catch_answers; [|apply log_and_fail_answers].
    do 2 (apply returns_bind; intros ?). by apply returns_ret, envelope_success.
  - apply try_catch_answers.
    + apply returns_bind. intros [p|].
      * apply returns_bind; intros ?. by apply returns_ret, envelope_success.
      * apply returns_ret, envelope_failure.
        apply list_elem_of_further, list_elem_of_here.
    + intros e w0. eexists _, _. split; [reflexivity|].
      apply envelope_failure.
      do 2 apply list_elem_of_further. apply list_elem_of_here.
  - apply try_catch_answers; [|apply log_and_fail_answers].
    do 6 (apply returns_bind; intros ?). by apply returns_ret, envelope_success.
  - apply try_catch_answers; [|apply log_and_fail_answers].
    do 3 (apply returns_bind; intros ?). by apply returns_ret, envelope_success.
  - unfold post_api_posts_id_comments.
    apply try_catch_answers; [|apply log_and_fail_answers].
    destruct (decide _).
    + apply returns_ret, envelope_failure, list_elem_of_here.
    + do 3 (apply returns_bind; intros ?).
      by apply returns_ret, envelope_success.
Qed.

(** ** What each request leaves alone *)

(** X2.  Whatever way the request ends: creating a post touches neither the
    reactions nor the comments table (the uploaded files are written by
    multer, before the handler runs, and are no part of this statement);
    listing and fetching touch no table and no file (fetching touches
    nothing at all);
    a reaction touches only the reactions table and a comment only the
    comments table; deleting post P removes from the upload directory the
    files of the Media rows of P and no other. *)
Theorem request_frame order (r : request) (w : world) :
  let w' := (app order r w).2 in
  match r with
  | CreatePost _ _ =>
      reactions (db w') = reactions (db w) ∧ comments (db w') = comments (db w)
  | ListPosts _ => db w' = db w ∧ uploads w' = uploads w
  | GetPost _ => w' = w
  | RemovePost id =>
      uploads w'
      = uploads w
          ∖ list_to_set
              (Media.filename
                 <$> filter (λ m, Media.post_id m = id) (media (db w)))
  | AddReaction _ _ =>
      posts (db w') = posts (db w) ∧ media (db w') = media (db w)
      ∧ comments (db w') = comments (db w) ∧ uploads w' = uploads w
  | AddComment _ _ =>
      posts (db w') = posts (db w) ∧ media (db w') = media (db w)
      ∧ reactions (db w') = reactions (db w) ∧ uploads w' = uploads w
  end.
Proof.
  assert (∀ {X} (f : world → X) (m : M response),
            preserves (λ w', f w' = f w) m → f (m w).2 = f w) as Hkept.
  { intros X f m Hm. by apply Hm. }
  destruct r as [form files|q|id|id|post_id b|post_id b]; cbn [app]; cbn zeta.
  - split;
      (apply (Hkept _ (λ w, reactions (db w)))
       || apply (Hkept _ (λ w, comments (db w))));
      unfold post_api_posts; along_statements keeps_part.
  - split; (apply (Hkept _ db) || apply (Hkept _ uploads));
      unfold get_api_posts; along_statements keeps_part.
  - unfold get_api_posts_id, try_catch, bind, select_post.
    by destruct (head _).
  - destruct (delete_run id w) as (w' & -> & _ & Hup & _). exact Hup.
  - repeat split;
      (apply (Hkept _ (λ w, posts (db w)))
       || apply (Hkept _ (λ w, media (db w)))
       || apply (Hkept _ (λ w, comments (db w)))
       || apply (Hkept _ uploads));
      unfold post_api_posts_id_reactions; along_statements keeps_part.
  - repeat split;
      (apply (Hkept _ (λ w, posts (db w)))
       || apply (Hkept _ (λ w, media (db w)))
       || apply (Hkept _ (λ w, reactions (db w)))
       || apply (Hkept _ uploads));
      unfold post_api_posts_id_comments; along_statements keeps_part.
Qed.

(** ** The primary keys *)

Lemma NoDup_fmap_snoc {A} (f : A → string) (l : list A) (r : A) :
  f r ∉ f <$> l → NoDup (f <$> l) → NoDup (f <$> (l ++ [r])).
Proof.
  intros Hnew Hnd. rewrite fmap_app. apply NoDup_app. split; [done|]. split.
  - intros x Hx ->%list_elem_of_singleton. by apply Hnew.
  - apply NoDup_singleton.
Qed.

Lemma NoDup_fmap_filter {A} (f : A → string) (P : A → Prop)
    `{∀ x, Decision (P x)} (l : list A) :
  NoDup (f <$> l) → NoDup (f <$> filter P l).
Proof.
  intros Hnd. eapply sublist_NoDup; [exact Hnd|].
  apply fmap_sublist, sublist_filter.
Qed.

(** A statement that keeps the primary keys: an INSERT is refused when the
    id is taken, a DELETE only removes rows, and nothing else writes to a
    table. *)
Ltac keeps_keys :=
  first
    [ keeps_part
    | let w := fresh "w" in
      intros w (? & ? & ? & ?);
      unfold insert_post, insert_media, insert_reaction, insert_comment,
        delete_media, delete_reactions, delete_comments, delete_post;
      try (case_decide; [by repeat split|]);
      cbn [snd db posts media reactions comments set_db record with_posts
             with_media with_reactions with_comments];
      repeat split; try done;
      first [by apply NoDup_fmap_snoc | by apply NoDup_fmap_filter] ].

Lemma app_keeps_primary_keys order r :
  preserves (λ w, primary_keys (db w)) (app order r).
Proof.
  destruct r as [form files|q|id|id|post_id b|post_id b]; cbn [app].
  - unfold post_api_posts. along_statements keeps_keys.
  - unfold get_api_posts. along_statements keeps_keys.
  - unfold get_api_posts_id. along_statements keeps_keys.
  - unfold delete_api_posts_id. along_statements keeps_keys.
  - unfold post_api_posts_id_reactions. along_statements keeps_keys.
  - unfold post_api_posts_id_comments. along_statements keeps_keys.
Qed.

(** X3.  Whatever requests are served, and however each ends, no table ever
    holds two rows with the same id, provided none did at the start. *)
Theorem primary_keys_are_kept order (rs : list request) (w : world) :
  primary_keys (db w) → primary_keys (db (serve order rs w)).
Proof.
  revert w. induction rs as [|r rs IH]; intros w Hw; [done|].
  cbn [serve]. by apply IH, app_keeps_primary_keys.
Qed.

(** ** Media rows and their posts *)

Lemma insert_media_owned id r :
  Media.post_id r = id →
  preserves (λ w, media_owned (db w) ∧ id ∈ Post.id <$> posts (db w))
    (insert_media r).
Proof.
  intros Hr w [Hown Hid]. unfold insert_media. case_decide; [done|].
  split; [|exact Hid]. intros m [Hm| ->%list_elem_of_singleton]%elem_of_app.
  - by apply Hown.
  - by rewrite Hr.
Qed.

Lemma app_keeps_media_owned order r :
  preserves (λ w, media_owned (db w)) (app order r).
Proof.
  destruct r as [form files|q|id|id|post_id b|post_id b]; cbn [app].
  - intros w Hown.
    remember (post_api_posts form files w) as res eqn:Hres.
    unfold post_api_posts in Hres.
    rewrite try_catch_bind in Hres. unfold uuidv4 at 1 in Hres.
    rewrite try_catch_bind in Hres. unfold Date_now at 1 in Hres.
    cbn [clock clock_calls] in Hres.
    rewrite try_catch_bind in Hres. unfold insert_post at 1 in Hres.
    cbn [db uuid_source uuid_calls Post.id] in Hres.
    destruct (decide _) as [|Hnew]; subst res; [exact Hown|].
    match goal with |- context [try_catch ?m ?h ?w1] =>
      assert (preserves
                (λ w', media_owned (db w')
                       ∧ uuid_source w (uuid_calls w)
                           ∈ Post.id <$> posts (db w'))
                (try_catch m h)) as Hrest
        by (along_statements
              ltac:(first [keeps_part | by apply insert_media_owned]));
      apply (Hrest w1)
    end.
    cbn [db posts media set_db record with_posts]. split.
    + unfold media_owned, with_posts. cbn [posts media].
      intros m Hm. rewrite fmap_app, elem_of_app. left. by apply Hown.
    + rewrite fmap_app, elem_of_app. right. apply list_elem_of_here.
  - unfold get_api_posts. along_statements keeps_part.
  - unfold get_api_posts_id. along_statements keeps_part.
  - intros w Hown.
    destruct (delete_run id w) as (w' & Hrun & Hdb & _).
    rewrite Hrun. cbn [snd]. rewrite Hdb. unfold media_owned. cbn [media posts].
    intros m [Hne Hm]%list_elem_of_filter.
    destruct (proj1 (list_elem_of_fmap _ _ _) (Hown m Hm)) as (p & Hp & Hin).
    apply list_elem_of_fmap. exists p. split; [done|].
    apply list_elem_of_filter. split; [congruence|done].
  - unfold post_api_posts_id_reactions. along_statements keeps_part.
  - unfold post_api_posts_id_comments. along_statements keeps_part.
Qed.

(** X4.  Media rows are never orphaned: whatever requests are served, and
    however each ends, every Media row belongs to a Post row, provided
    that was so at the start.  (Reaction and Comment rows have no such
    guarantee.) *)
Theorem media_rows_stay_owned order (rs : list request) (w : world) :
  media_owned (db w) → media_owned (db (serve order rs w)).
Proof.
  revert w. induction rs as [|r rs IH]; intros w Hw; [done|].
  cbn [serve]. by apply IH, app_keeps_media_owned.
Qed.

(** ** Deleting twice, and deleting next to other posts *)


Lemma filter_other {A} (f : A → string) (l : list A) (id id' : string) :
  id' ≠ id →
  filter (λ x, f x = id') (filter (λ x, f x ≠ id) l)
  = filter (λ x, f x = id') l.
Proof.
  intros Hne. induction l as [|x l IH]; [done|].
  destruct (decide (f x = id)) as [Heq|Hx].
  - rewrite (filter_cons_False (λ x, f x ≠ id)) by naive_solver.
    rewrite (filter_cons_False (λ x, f x = id')) by congruence. exact IH.
  - rewrite (filter_cons_True (λ x, f x ≠ id)) by done.
    destruct (decide (f x = id')).
    + rewrite !filter_cons_True by done. by rewrite IH.
    + rewrite !filter_cons_False by done. exact IH.
Qed.

(** X9.  Deleting post P leaves every other post in the posts table, with the
    same media, reaction counts and comment count in the feed, and leaves
    on disk every file that no Media row of P names. *)
Theorem delete_spares_other_posts id (w : world) (p : Post.t) :
  p ∈ posts (db w) → Post.id p ≠ id →
  let w' := (delete_api_posts_id id w).2 in
  p ∈ posts (db w')
  ∧ post_view (db w') p = post_view (db w) p
  ∧ ∀ name,
      name ∈ uploads w →
      name ∉ Media.filename
               <$> filter (λ m, Media.post_id m = id) (media (db w)) →
      name ∈ uploads w'.
Proof.
  intros Hp Hne.
  destruct (delete_run id w) as (w' & Hrun & Hdb & Hup & _).
  rewrite Hrun. cbn [snd]. cbn zeta. rewrite Hdb, Hup. split; [|split].
  - cbn [posts]. by apply list_elem_of_filter.
  - unfold post_view. cbn [media reactions comments].
    by rewrite !filter_other.
  - intros name Hin Hnot. apply elem_of_difference. split; [done|].
    by rewrite elem_of_list_to_set.
Qed.

(** ** Creating a post: what is stored, and what a failure leaves behind *)

Lemma for_of_app {A} (l1 l2 : list A) (body : A → M unit) w :
  for_of (l1 ++ l2) body w
  = match for_of l1 body w with
    | (Ok _, w1) => for_of l2 body w1
    | (Throw e, w1) => (Throw e, w1)
    end.
Proof.
  revert w. induction l1 as [|x l1 IH]; intros w; [done|].
  rewrite <- app_comm_cons. cbn [for_of]. unfold bind.
  destruct (body x w) as [[[]|e] w1]; [apply IH|done].
Qed.

(** The create-post handler when every generated id is new. *)
Lemma create_post_run form files w :
  Post.id (new_post form w) ∉ Post.id <$> posts (db w) →
  NoDup (Media.id <$> new_media files w) →
  (∀ r, r ∈ new_media files w → Media.id r ∉ Media.id <$> media (db w)) →
  ∃ w',
    post_api_posts form (Some files) w
    = (Ok (res_json (obj [("success", JBool true);
                          ("post", JObj (Post.to_object (new_post form w)))])),
       w')
    ∧ db w'
      = mkdb (posts (db w) ++ [new_post form w])
          (media (db w) ++ new_media files w)
          (reactions (db w)) (comments (db w))
    ∧ uploads w' = uploads w.
Proof.
  intros Hpost Hnd Hfresh. eexists. split.
  { unfold post_api_posts. apply try_catch_Ok.
    unfold bind at 1. unfold uuidv4 at 1.
    unfold bind at 1. unfold Date_now at 1. cbn [clock clock_calls].
    unfold bind at 1. unfold insert_post at 1.
    cbn [db uuid_source uuid_calls Post.id].
    destruct (decide _) as [|_]; [done|].
    unfold bind at 1. cbn [from_option id].
    rewrite media_loop; [| exact Hnd | exact Hfresh].
    unfold bind, select_post, ret.
    cbn [db uuid_source uuid_calls with_media with_posts media set_db record
           uploads clock clock_calls trace posts reactions comments].
    rewrite (head_filter_appended (new_post form w)) by exact Hpost.
    reflexivity. }
  split; reflexivity.
Qed.




(** X6.  Creating a post is not atomic.  When the Post row and the Media rows
    of the first files have been inserted and the INSERT of the next Media
    row is refused (its id is taken), the request is answered 500 with the
    error's message, and the Post row and the Media rows inserted so far
    stay in the database. *)
Theorem create_post_failure_keeps_rows form (stored : list File.t)
    (f : File.t) (rest : list File.t) (w : world) :
  Post.id (new_post form w) ∉ Post.id <$> posts (db w) →
  NoDup (Media.id <$> new_media stored w) →
  (∀ r, r ∈ new_media stored w → Media.id r ∉ Media.id <$> media (db w)) →
  uuid_source w (S (uuid_calls w) + length stored)
    ∈ Media.id <$> (media (db w) ++ new_media stored w) →
  ∃ message w',
    post_api_posts form (Some (stored ++ f :: rest)) w
    = (Ok (res_status_json 500 (failure message)), w')
    ∧ posts (db w') = posts (db w) ++ [new_post form w]
    ∧ media (db w') = media (db w) ++ new_media stored w
    ∧ last (trace w') = Some (ConsoleError message).
Proof.
  intros Hpost Hnd Hfresh Htaken. eexists _, _. split.
  - unfold post_api_posts. rewrite try_catch_bind. unfold uuidv4 at 1.
    rewrite try_catch_bind. unfold Date_now at 1. cbn [clock clock_calls].
    rewrite try_catch_bind. unfold insert_post at 1.
    cbn [db uuid_source uuid_calls Post.id].
    destruct (decide _) as [Hin|_]; [by destruct Hpost|].
    rewrite try_catch_bind. cbn [from_option id]. rewrite for_of_app.
    rewrite media_loop; [| exact Hnd | exact Hfresh].
    cbn [for_of]. unfold bind at 1. unfold bind at 1. unfold uuidv4 at 1.
    unfold insert_media at 1.
    cbn [db uuid_source uuid_calls with_media with_posts media set_db record
           uploads clock clock_calls trace posts reactions comments Media.id].
    destruct (decide _) as [_|Hno]; [|by destruct Hno].
    reflexivity.
  - cbn [db posts media record set_db with_media with_posts snd trace].
    split; [done|]. split; [done|]. by rewrite last_snoc.
Qed.

(** ** Comments and reactions in the feed *)

(** X10.  After a comment was accepted on a post id, the feed counts one more
    comment for the post with that id and the same number as before for
    every other post; media and reaction counts are as before. *)
Theorem comment_is_counted post_id (b : comment_body) (w : world) (p : Post.t) :
  default "" (comment_text b) ≠ "" →
  uuid_source w (uuid_calls w) ∉ Comment.id <$> comments (db w) →
  let w' := (post_api_posts_id_comments post_id b w).2 in
  property "comments_count" (post_view (db w') p)
  = Some (JNum (Z.of_nat (length (comment_rows (db w) (Post.id p)))
                + (if decide (Post.id p = post_id) then 1 else 0)))
  ∧ property "reactions" (post_view (db w') p)
    = property "reactions" (post_view (db w) p)
  ∧ property "media" (post_view (db w') p)
    = property "media" (post_view (db w) p).
Proof.
  intros Htext Hfresh.
  destruct (post_comment_inserts post_id b w Htext Hfresh)
    as (w' & Hrun & Hdb & _).
  rewrite Hrun. cbn [snd]. cbn zeta. rewrite Hdb.
  split; [|by split].
  unfold post_view, property, comment_rows. rewrite lookup_insert_eq.
  cbn [comments with_comments]. rewrite filter_app, length_app.
  do 2 f_equal. rewrite Nat2Z.inj_add. f_equal.
  destruct (decide (Post.id p = post_id)) as [->|Hne].
  - by rewrite filter_cons_True.
  - by rewrite filter_cons_False by (cbn; congruence).
Qed.

(** X11.  After a reaction was accepted on a post id, with a type other than
    "__proto__", the feed's reactions of the post with that id map that
    type to one more than before and every other type as before. *)
Theorem reaction_is_counted post_id (b : reaction_body) (w : world)
    (p : Post.t) :
  default "like" (body_type b) ≠ "__proto__" →
  uuid_source w (uuid_calls w) ∉ Reaction.id <$> reactions (db w) →
  Post.id p = post_id →
  let w' := (post_api_posts_id_reactions post_id b w).2 in
  ∃ before after,
    property "reactions" (post_view (db w) p) = Some (JObj before)
    ∧ property "reactions" (post_view (db w') p) = Some (JObj after)
    ∧ after !! default "like" (body_type b)
      = Some (JNum (Z.of_nat (length (reaction_rows (db w) post_id
                                        (default "like" (body_type b))))
                    + 1))
    ∧ ∀ t, t ≠ default "like" (body_type b) → after !! t = before !! t.
Proof.
  intros Hproto Hfresh Hp.
  destruct (post_reaction_inserts post_id b w Hfresh) as (w' & Hrun & Hdb & _).
  rewrite Hrun. cbn [snd]. cbn zeta.
  destruct (post_view_fields (db w) p) as (_ & before & Hbefore & Hlookup).
  destruct (post_view_fields (db w') p) as (_ & after & Hafter & Hlookup').
  exists before, after. split; [exact Hbefore|]. split; [exact Hafter|].
  assert (∀ t, reaction_rows (db w') (Post.id p) t
               = reaction_rows (db w) (Post.id p) t
                 ++ (if decide (t = default "like" (body_type b))
                     then [new_reaction post_id b w] else [])) as Hrows.
  { intros t. unfold reaction_rows. rewrite Hdb.
    cbn [reactions with_reactions]. rewrite filter_app. f_equal.
    destruct (decide _) as [->|Hne].
    - by rewrite filter_cons_True.
    - rewrite filter_cons_False; [done|]. cbn. naive_solver. }
  split.
  - pose proof (Hrows (default "like" (body_type b))) as Hone.
    rewrite decide_True in Hone by done.
    rewrite Hlookup', Hone, Hp. rewrite decide_True.
    + rewrite length_app. cbn [length]. do 2 f_equal. lia.
    + split; [|done]. by intros [_ ?]%app_eq_nil.
  - intros t Hne. pose proof (Hrows t) as Hsame.
    rewrite decide_False, app_nil_r in Hsame by done.
    by rewrite Hlookup', Hlookup, Hsame.
Qed.

(** ** Errors of the store *)

(** X7.  When the id generated for a new Reaction, Comment or Post row is
    already an id of its table, the request is answered 500 with
    [{success: false, error}] carrying the store's message, the message is
    logged, and no table changes. *)
Theorem taken_id_answers_500 (w : world) :
  (∀ post_id b,
     uuid_source w (uuid_calls w) ∈ Reaction.id <$> reactions (db w) →
     ∃ message w',
       post_api_posts_id_reactions post_id b w
       = (Ok (res_status_json 500 (failure message)), w')
       ∧ db w' = db w ∧ trace w' = trace w ++ [ConsoleError message])
  ∧ (∀ post_id b,
       default "" (comment_text b) ≠ "" →
       uuid_source w (uuid_calls w) ∈ Comment.id <$> comments (db w) →
       ∃ message w',
         post_api_posts_id_comments post_id b w
         = (Ok (res_status_json 500 (failure message)), w')
         ∧ db w' = db w ∧ trace w' = trace w ++ [ConsoleError message])
  ∧ (∀ form files,
       uuid_source w (uuid_calls w) ∈ Post.id <$> posts (db w) →
       ∃ message w',
         post_api_posts form files w
         = (Ok (res_status_json 500 (failure message)), w')
         ∧ db w' = db w ∧ trace w' = trace w ++ [ConsoleError message]).
Proof.
  split; [|split].
  - intros post_id b Htaken. rewrite post_reaction_run.
    rewrite decide_True by exact Htaken. by eexists _, _.
  - intros post_id b Htext Htaken. unfold post_api_posts_id_comments.
    rewrite decide_False by exact Htext.
    rewrite try_catch_bind. unfold uuidv4 at 1.
    rewrite try_catch_bind. unfold Date_now at 1.
    rewrite try_catch_bind. unfold insert_comment at 1.
    cbn [db uuid_source uuid_calls Comment.id].
    rewrite decide_True by exact Htaken. by eexists _, _.
  - intros form files Htaken. unfold post_api_posts.
    rewrite try_catch_bind. unfold uuidv4 at 1.
    rewrite try_catch_bind. unfold Date_now at 1.
    rewrite try_catch_bind. unfold insert_post at 1.
    cbn [db uuid_source uuid_calls Post.id].
    rewrite decide_True by exact Htaken. by eexists _, _.
Qed.

(** ** The list handler at the edges of its parameters *)

(** X12.  A page or a limit that does not start with a number (after white
    space and a sign) is NaN; the store refuses it, the request is answered
    500 with the store's message, which is logged, and nothing else
    changes. *)
Theorem list_refuses_not_a_number order (q : list_query) (w : world) :
  parseInt (or_default (query_page q) "1") = NaN
  ∨ parseInt (or_default (query_limit q) "8") = NaN →
  ∃ message w',
    get_api_posts order q w
    = (Ok (res_status_json 500 (failure message)), w')
    ∧ db w' = db w ∧ uploads w' = uploads w
    ∧ trace w' = trace w ++ [ConsoleError message].
Proof.
  intros Hnan. rewrite get_api_posts_run. unfold page_limit_offset.
  assert (∀ page limit,
            page = NaN ∨ limit = NaN →
            js_mul (js_sub (Math_max (Num 1) page) (Num 1))
              (Math_min (Num 50) limit) = NaN) as Hoffset.
  { intros page limit [-> | ->]; [done|]. by destruct page. }
  rewrite (Hoffset _ _ Hnan).
  destruct (Math_min _ _); by eexists _, _.
Qed.

(** X13.  A negative limit lifts the limit: for every page, the response lists
    every post of the table. *)
Theorem negative_limit_lists_every_post order (q : list_query) (w : world)
    (p l : Z) :
  parseInt (or_default (query_page q) "1") = Num p →
  parseInt (or_default (query_limit q) "8") = Num l →
  l < 0 →
  Z.abs p ≤ MAX_SAFE_INTEGER → Z.abs l ≤ MAX_SAFE_INTEGER →
  Z.abs ((Z.max 1 p - 1) * l) ≤ MAX_SAFE_INTEGER →
  get_api_posts order q w
  = (Ok (res_json
           (obj [("success", JBool true); ("page", JNum (Z.max 1 p));
                 ("limit", JNum l);
                 ("posts", JArr (post_view (db w) <$> order (posts (db w))))])),
     w).
Proof.
  intros Hp Hl Hneg _ _ _.
  rewrite get_api_posts_run, (page_limit_offset_num q p l Hp Hl).
  rewrite (Z.min_r 50 l) by lia. cbn [json_of_num]. unfold limit_offset.
  destruct (Z.ltb_spec l 0); [|lia].
  replace (Z.to_nat ((Z.max 1 p - 1) * l)) with 0%nat by nia.
  by rewrite drop_0.
Qed.

Lemma NoDup_fmap_inj_on {A B} (f : A → B) (l : list A) x y :
  NoDup (f <$> l) → x ∈ l → y ∈ l → f x = f y → x = y.
Proof.
  intros Hnd Hx Hy Heq. induction l as [|a l IH]; [by apply elem_of_nil in Hx|].
  rewrite fmap_cons, NoDup_cons in Hnd. destruct Hnd as [Ha Hnd].
  apply elem_of_cons in Hx as [->|Hx]; apply elem_of_cons in Hy as [->|Hy].
  - done.
  - destruct Ha. rewrite Heq. by apply list_elem_of_fmap_2.
  - destruct Ha. rewrite <- Heq. by apply list_elem_of_fmap_2.
  - by apply IH.
Qed.

(** X17.  When no two posts have the same created_at, the feed does not depend
    on how the engine orders equal keys: two engines that both return the
    table rearranged with created_at descending give the same response to
    every list request. *)
Theorem feed_is_determined_by_created_at (order1 order2 : list Post.t → list Post.t)
    (q : list_query) (w : world) :
  (∀ l, Sorted newer_first (order1 l)) → (∀ l, order1 l ≡ₚ l) →
  (∀ l, Sorted newer_first (order2 l)) → (∀ l, order2 l ≡ₚ l) →
  NoDup (Post.created_at <$> posts (db w)) →
  get_api_posts order1 q w = get_api_posts order2 q w.
Proof.
  intros Hs1 Hp1 Hs2 Hp2 Hnd.
  assert (order1 (posts (db w)) = order2 (posts (db w))) as Heq.
  { apply (StronglySorted_unique_strong newer_first).
    - intros x1 x2 Hx1 Hx2 H12 H21. rewrite Hp1 in Hx1. rewrite Hp2 in Hx2.
      apply (NoDup_fmap_inj_on Post.created_at (posts (db w))); try done.
      unfold newer_first in *. lia.
    - apply Sorted_StronglySorted; [apply _|apply Hs1].
    - apply Sorted_StronglySorted; [apply _|apply Hs2].
    - by rewrite Hp1, Hp2. }
  by rewrite !get_api_posts_run, Heq.
Qed.

(** X15.  The number of posts on a page: for a page p at least 1 and a limit l
    from 1 to 50, the response lists l posts, or as many as the table has
    left after the (p-1)*l posts of the pages before. *)
Theorem page_length order (q : list_query) (w : world) (p l : Z) :
  (∀ rows, order rows ≡ₚ rows) →
  parseInt (or_default (query_page q) "1") = Num p →
  parseInt (or_default (query_limit q) "8") = Num l →
  1 ≤ p → 1 ≤ l ≤ 50 → (p - 1) * l ≤ MAX_SAFE_INTEGER →
  length (body_posts (response_body (get_api_posts order q w).1))
  = Nat.min (Z.to_nat l)
      (length (posts (db w)) - Z.to_nat ((p - 1) * l)).
Proof.
  intros Hperm Hp Hl Hp1 Hl1 _.
  rewrite get_api_posts_run, (page_limit_offset_num q p l Hp Hl).
  rewrite Z.max_r, Z.min_r by lia. cbn [fst response_body].
  change (body_posts _) with
    (post_view (db w) <$> limit_offset l ((p - 1) * l) (order (posts (db w)))).
  unfold limit_offset. destruct (Z.ltb_spec l 0); [lia|].
  by rewrite length_fmap, length_take, length_drop, Hperm.
Qed.

(** ** Query parameters written in decimal *)

Lemma is_decimal_cases c :
  is_decimal c →
  c ∈ ["0"; "1"; "2"; "3"; "4"; "5"; "6"; "7"; "8"; "9"]%char.
Proof.
  intros (d & Hd & ->).
  assert (d = 0 ∨ d = 1 ∨ d = 2 ∨ d = 3 ∨ d = 4 ∨ d = 5 ∨ d = 6 ∨ d = 7
          ∨ d = 8 ∨ d = 9)%N as Hcases by lia.
  repeat (destruct Hcases as [->|Hcases]; [set_solver|]). subst d. set_solver.
Qed.

Lemma digit_value_pretty d :
  (d < 10)%N → digit_value 10 (pretty_N_char d) = Some (Z.of_N d).
Proof.
  intros Hd.
  assert (d = 0 ∨ d = 1 ∨ d = 2 ∨ d = 3 ∨ d = 4 ∨ d = 5 ∨ d = 6 ∨ d = 7
          ∨ d = 8 ∨ d = 9)%N as Hcases by lia.
  repeat (destruct Hcases as [->|Hcases]; [done|]). by subst d.
Qed.

(** Running through the digits of a number. *)
Lemma parse_digits_pretty x : ∀ s acc,
  (0 < x)%N →
  ∃ k, 0 ≤ k
       ∧ parse_digits 10 (pretty_N_go x s) acc
         = parse_digits 10 s (Some (default 0 acc * 10 ^ k + Z.of_N x)).
Proof.
  induction (N.lt_wf_0 x) as [x _ IH]. intros s acc Hx.
  rewrite pretty_N_go_step by done.
  assert (x `mod` 10 < 10)%N as Hmod by (apply N.mod_lt; lia).
  assert (x = 10 * x `div` 10 + x `mod` 10)%N as Hdiv
    by (by apply N.div_mod).
  destruct (decide (x `div` 10 = 0)%N) as [Hzero|Hpos].
  - rewrite Hzero, pretty_N_go_0. cbn [parse_digits].
    rewrite (digit_value_pretty _ Hmod). exists 1. split; [lia|].
    do 2 f_equal. lia.
  - destruct (IH (x `div` 10)%N ltac:(apply N.div_lt; lia)
                (String (pretty_N_char (x `mod` 10)) s) acc ltac:(lia))
      as (k & Hk & ->).
    cbn [parse_digits]. rewrite (digit_value_pretty _ Hmod).
    exists (k + 1). split; [lia|]. do 2 f_equal.
    cbn [from_option id]. rewrite Z.pow_add_r by lia. lia.
Qed.

Lemma decimal_head_pretty x : ∀ s,
  (0 < x)%N →
  match s with EmptyString => True | String c _ => is_decimal c end →
  decimal_head (pretty_N_go x s).
Proof.
  induction (N.lt_wf_0 x) as [x _ IH]. intros s Hx Hs.
  rewrite pretty_N_go_step by done.
  assert (is_decimal (pretty_N_char (x `mod` 10))) as Hc.
  { eexists. split; [|done]. apply N.mod_lt. lia. }
  destruct (decide (x `div` 10 = 0)%N) as [Hzero|Hpos].
  - rewrite Hzero, pretty_N_go_0. by split.
  - apply IH; [apply N.div_lt; lia|by apply N.neq_0_lt_0|exact Hc].
Qed.

(** [parseInt] on a decimal numeral, without and with a minus sign: no
    white space is skipped and no hexadecimal prefix is seen. *)
Lemma parseInt_decimal_head s :
  decimal_head s →
  parseInt s = match parse_digits 10 s None with
               | Some v => Num (1 * v)
               | None => NaN
               end
  ∧ parseInt (String "-" s) = match parse_digits 10 s None with
                              | Some v => Num (-1 * v)
                              | None => NaN
                              end.
Proof.
  destruct s as [|c r]; [done|]. intros [Hc Hr].
  apply is_decimal_cases in Hc.
  destruct r as [|c2 r2].
  - repeat (apply elem_of_cons in Hc as [->|Hc]; [by split|]).
    by apply elem_of_nil in Hc.
  - apply is_decimal_cases in Hr.
    repeat (apply elem_of_cons in Hc as [->|Hc];
            [repeat (apply elem_of_cons in Hr as [->|Hr];
                     [by destruct r2 as [|c3 r3]; split|]);
             by apply elem_of_nil in Hr|]).
    by apply elem_of_nil in Hc.
Qed.

Lemma parseInt_pretty_N x :
  (0 < x)%N →
  parseInt (pretty_N_go x "") = Num (Z.of_N x)
  ∧ parseInt ("-" +:+ pretty_N_go x "") = Num (- Z.of_N x).
Proof.
  intros Hx.
  destruct (parseInt_decimal_head (pretty_N_go x ""))
    as [-> Hneg]; [by apply decimal_head_pretty|].
  change ("-" +:+ pretty_N_go x "") with (String "-" (pretty_N_go x "")).
  rewrite Hneg.
  destruct (parse_digits_pretty x "" None Hx) as (k & _ & ->).
  cbn [parse_digits from_option id]. split; f_equal; lia.
Qed.

(** [parseInt] reads back the decimal numeral of every integer. *)
Lemma parseInt_pretty (z : Z) : parseInt (pretty z) = Num z.
Proof.
  destruct z as [|x|x]; [done|..]; unfold pretty, pretty_Z, pretty,
    pretty_positive, pretty, pretty_N.
  - rewrite decide_False by done. by apply parseInt_pretty_N.
  - rewrite decide_False by done.
    by destruct (parseInt_pretty_N (N.pos x)) as [_ ->].
Qed.

Lemma or_default_pretty (z : Z) d : or_default (Some (pretty z)) d = pretty z.
Proof.
  destruct (pretty z) as [|c r] eqn:Hz; [|done].
  exfalso. pose proof (parseInt_pretty z) as Hparse. by rewrite Hz in Hparse.
Qed.

(** X14.  A request [?page=n&limit=m] with n and m written in decimal, of a
    magnitude that JavaScript represents exactly, is served with page
    max(1, n), limit min(50, m) and offset (page - 1) * limit, whatever
    the signs of n and m. *)
Theorem decimal_parameters_are_read (n m : Z) :
  Z.abs n ≤ MAX_SAFE_INTEGER → Z.abs m ≤ MAX_SAFE_INTEGER →
  Z.abs ((Z.max 1 n - 1) * Z.min 50 m) ≤ MAX_SAFE_INTEGER →
  page_limit_offset (mkquery (Some (pretty n)) (Some (pretty m)))
  = (Num (Z.max 1 n), Num (Z.min 50 m), Num ((Z.max 1 n - 1) * Z.min 50 m)).
Proof.
  intros _ _ _. apply page_limit_offset_num; cbn [query_page query_limit];
    by rewrite or_default_pretty, parseInt_pretty.
Qed.

(** ** Paging through the feed *)

Lemma sorted_head_is_newest (l old : list Post.t) (x : Post.t) :
  Sorted newer_first l → l ≡ₚ old ++ [x] →
  (∀ y, y ∈ old → Post.created_at y < Post.created_at x) →
  ∃ tl, l = x :: tl.
Proof.
  intros Hsorted Hperm Hnewest.
  apply Sorted_StronglySorted in Hsorted; [|apply _].
  destruct l as [|h tl].
  { apply Permutation_nil_l in Hperm. by destruct old. }
  assert (x ∈ h :: tl) as Hx by (rewrite Hperm; set_solver).
  apply elem_of_cons in Hx as [->|Hx]; [by eexists|].
  assert (h ∈ old ++ [x]) as Hh by (rewrite <- Hperm; set_solver).
  apply elem_of_app in Hh as [Hh| ->%list_elem_of_singleton]; [|by eexists].
  apply StronglySorted_cons in Hsorted as [Hall _].
  rewrite Forall_forall in Hall. specialize (Hall x Hx).
  specialize (Hnewest h Hh). unfold newer_first in Hall. lia.
Qed.

(** X18.  A post created at a time later than every post of the table comes out
    first in the feed: it is the first entry of the first page. *)
Theorem new_post_tops_the_feed order form (files : list File.t) (w : world) :
  (∀ l, Sorted newer_first (order l)) → (∀ l, order l ≡ₚ l) →
  Post.id (new_post form w) ∉ Post.id <$> posts (db w) →
  NoDup (Media.id <$> new_media files w) →
  (∀ r, r ∈ new_media files w → Media.id r ∉ Media.id <$> media (db w)) →
  (∀ p, p ∈ posts (db w) → Post.created_at p < clock w (clock_calls w)) →
  let w' := (post_api_posts form (Some files) w).2 in
  ∃ others,
    body_posts (response_body (get_api_posts order (mkquery None None) w').1)
    = post_view (db w') (new_post form w) :: others.
Proof.
  intros Hsorted Hperm Hpost Hnd Hfresh Hlater.
  destruct (create_post_run form files w Hpost Hnd Hfresh)
    as (w' & Hrun & Hdb & _).
  rewrite Hrun. cbn [snd]. cbn zeta. rewrite get_api_posts_run.
  change (page_limit_offset (mkquery None None)) with (Num 1, Num 8, Num 0).
  cbn [fst response_body].
  change (body_posts _) with
    (post_view (db w') <$> limit_offset 8 0 (order (posts (db w')))).
  destruct (sorted_head_is_newest (order (posts (db w'))) (posts (db w))
              (new_post form w)) as (tl & ->).
  - apply Hsorted.
  - by rewrite Hperm, Hdb.
  - exact Hlater.
  - by eexists.
Qed.

(** X16.  Every post can be reached by paging: for a limit l from 1 to 50, each
    post of the table is listed on the page whose number is its rank in
    the descending order, counted from 0, divided by l, plus 1. *)
Theorem every_post_is_on_some_page order (w : world) (l : Z) (p : Post.t) :
  (∀ rows, order rows ≡ₚ rows) →
  1 ≤ l ≤ 50 →
  Z.of_nat (length (posts (db w))) ≤ MAX_SAFE_INTEGER →
  p ∈ posts (db w) →
  ∃ rank : nat,
    order (posts (db w)) !! rank = Some p
    ∧ post_view (db w) p
      ∈ body_posts
          (response_body
             (get_api_posts order
                (mkquery (Some (pretty (Z.of_nat rank `div` l + 1)))
                   (Some (pretty l))) w).1).
Proof.
  intros Hperm Hl _ Hp.
  assert (p ∈ order (posts (db w))) as Hin by by rewrite Hperm.
  apply list_elem_of_lookup in Hin as [rank Hrank].
  exists rank. split; [exact Hrank|].
  set (k := Z.of_nat rank `div` l).
  assert (0 ≤ k) as Hk by (apply Z.div_pos; lia).
  pose proof (Z.div_mod (Z.of_nat rank) l ltac:(lia)) as Hdiv.
  pose proof (Z.mod_pos_bound (Z.of_nat rank) l ltac:(lia)) as Hmod.
  fold k in Hdiv.
  rewrite get_api_posts_run.
  rewrite (page_limit_offset_num _ (k + 1) l);
    [|cbn [query_page]; by rewrite or_default_pretty, parseInt_pretty
     |cbn [query_limit]; by rewrite or_default_pretty, parseInt_pretty].
  rewrite Z.max_r, Z.min_r by lia. cbn [fst response_body].
  change (body_posts _) with
    (post_view (db w)
       <$> limit_offset l ((k + 1 - 1) * l) (order (posts (db w)))).
  apply list_elem_of_fmap_2. unfold limit_offset.
  destruct (Z.ltb_spec l 0); [lia|].
  apply list_elem_of_lookup. exists (rank - Z.to_nat (k * l))%nat.
  replace ((k + 1 - 1) * l) with (k * l) by lia.
  rewrite lookup_take_lt by lia. rewrite lookup_drop.
  by replace (Z.to_nat (k * l) + (rank - Z.to_nat (k * l)))%nat with rank
    by lia.
Qed.

(** * The further properties at sample requests *)

Lemma sort_reversed_sorted l : Sorted newer_first (sort_reversed l).
Proof. apply Sorted_merge_sort, _. Qed.

Lemma sort_reversed_perm l : sort_reversed l ≡ₚ l.
Proof. unfold sort_reversed. by rewrite merge_sort_Permutation, reverse_Permutation. Qed.

Lemma every_request_is_answered_sample :
  ∃ resp w',
    app sort_newer_first
      (CreatePost (mkform (Some "hello") None None)
         (Some [File.mk "1_x.png" "image/png"; File.mk "1_y.mp4" "video/mp4"]))
      sample_world
    = (Ok resp, w')
    ∧ status resp = 200
    ∧ property "success" (body resp) = Some (JBool true).
Proof.
  destruct (every_request_is_answered sort_newer_first
              (CreatePost (mkform (Some "hello") None None)
                 (Some [File.mk "1_x.png" "image/png";
                        File.mk "1_y.mp4" "video/mp4"]))
              sample_world)
    as (resp & w' & Hrun & Henvelope); [compute_done|].
  exists resp, w'. split; [exact Hrun|].
  injection Hrun as <- _. split; reflexivity.
Defined.

Lemma primary_keys_are_kept_sample :
  primary_keys
    (db (serve sort_newer_first
           [CreatePost (mkform (Some "hi") None None)
              (Some [File.mk "1_x.png" "image/png"]);
            AddComment "P" (mkcomment_body None (Some "nice"));
            AddReaction "P" (mkreaction_body None None);
            RemovePost "P"]
           sample_world)).
Proof.
  apply primary_keys_are_kept. repeat split; compute_done.
Defined.

Lemma media_rows_stay_owned_sample :
  media_owned
    (db (serve sort_newer_first
           [CreatePost (mkform (Some "hi") None None)
              (Some [File.mk "1_x.png" "image/png"]);
            RemovePost "P"]
           sample_world)).
Proof.
  apply media_rows_stay_owned.
  intros m ->%list_elem_of_singleton. compute_done.
Defined.

Lemma delete_spares_other_posts_sample :
  let w' := (delete_api_posts_id "P" two_posts_world).2 in
  Post.mk "Q" "Eve" "yo" "c" 2000 ∈ posts (db w')
  ∧ post_view (db w') (Post.mk "Q" "Eve" "yo" "c" 2000)
    = post_view (db two_posts_world) (Post.mk "Q" "Eve" "yo" "c" 2000)
  ∧ "2000_b.png" ∈ uploads w'.
Proof.
  destruct (delete_spares_other_posts "P" two_posts_world
              (Post.mk "Q" "Eve" "yo" "c" 2000))
    as (Hin & Hview & Hfiles).
  - apply list_elem_of_further, list_elem_of_here.
  - done.
  - split; [exact Hin|]. split; [exact Hview|].
    apply Hfiles; compute_done.
Defined.


Lemma create_post_failure_keeps_rows_sample :
  ∃ message w',
    post_api_posts (mkform (Some "hello") None None)
      (Some [File.mk "1_x.png" "image/png"]) clashing_world
    = (Ok (res_status_json 500 (failure message)), w')
    ∧ posts (db w')
      = [Post.mk "P" "Bob" "hi" "" 1000;
         Post.mk "N" "Anônimo" "hello" "" (sample_clock 0)]
    ∧ media (db w') = media (db sample_world).
Proof.
  destruct (create_post_failure_keeps_rows (mkform (Some "hello") None None)
              [] (File.mk "1_x.png" "image/png") [] clashing_world)
    as (message & w' & Hrun & Hposts & Hmedia & _).
  - compute_done.
  - compute_done.
  - apply Forall_forall. compute_done.
  - compute_done.
  - exists message, w'. split; [exact Hrun|]. split; [exact Hposts|].
    rewrite Hmedia. apply app_nil_r.
Defined.

Lemma comment_is_counted_sample :
  property "comments_count"
    (post_view
       (db (post_api_posts_id_comments "P"
              (mkcomment_body None (Some "again")) sample_world).2)
       (Post.mk "P" "Bob" "hi" "" 1000))
  = Some (JNum 2).
Proof.
  destruct (comment_is_counted "P" (mkcomment_body None (Some "again"))
              sample_world (Post.mk "P" "Bob" "hi" "" 1000))
    as (Hcount & _); [done|compute_done|].
  exact Hcount.
Defined.

Lemma reaction_is_counted_sample :
  ∃ after,
    property "reactions"
      (post_view
         (db (post_api_posts_id_reactions "P"
                (mkreaction_body (Some "wow") None) sample_world).2)
         (Post.mk "P" "Bob" "hi" "" 1000))
    = Some (JObj after)
    ∧ after !! "wow" = Some (JNum 2)
    ∧ after !! "like" = Some (JNum 2).
Proof.
  destruct (reaction_is_counted "P" (mkreaction_body (Some "wow") None)
              sample_world (Post.mk "P" "Bob" "hi" "" 1000))
    as (before & after & Hbefore & Hafter & Hwow & Hother);
    [done|compute_done|done|].
  exists after. split; [exact Hafter|]. split; [exact Hwow|].
  rewrite (Hother "like") by done.
  injection Hbefore as <-. reflexivity.
Defined.

Lemma taken_id_answers_500_sample :
  ∃ message w',
    post_api_posts_id_reactions "P" (mkreaction_body None None)
      (stuck_on "R1" sample_world)
    = (Ok (res_status_json 500 (failure message)), w')
    ∧ db w' = db sample_world.
Proof.
  destruct (taken_id_answers_500 (stuck_on "R1" sample_world))
    as (Hreaction & _).
  destruct (Hreaction "P" (mkreaction_body None None))
    as (message & w' & Hrun & Hdb & _); [compute_done|].
  by exists message, w'.
Defined.

Lemma list_refuses_not_a_number_sample :
  ∃ message w',
    get_api_posts sort_newer_first (mkquery (Some "two") None) sample_world
    = (Ok (res_status_json 500 (failure message)), w')
    ∧ db w' = db sample_world.
Proof.
  destruct (list_refuses_not_a_number sort_newer_first
              (mkquery (Some "two") None) sample_world)
    as (message & w' & Hrun & Hdb & _); [by left|].
  by exists message, w'.
Defined.

Lemma negative_limit_lists_every_post_sample :
  length
    (body_posts
       (response_body
          (get_api_posts sort_newer_first (mkquery (Some "3") (Some "-1"))
             feed_world).1))
  = 20%nat.
Proof.
  rewrite (negative_limit_lists_every_post sort_newer_first
             (mkquery (Some "3") (Some "-1")) feed_world 3 (-1));
    [|done..].
  reflexivity.
Defined.

Lemma feed_is_determined_by_created_at_sample :
  get_api_posts sort_newer_first (mkquery (Some "2") (Some "8")) feed_world
  = get_api_posts sort_reversed (mkquery (Some "2") (Some "8")) feed_world.
Proof.
  apply feed_is_determined_by_created_at.
  - apply sort_newer_first_sorted.
  - apply sort_newer_first_perm.
  - apply sort_reversed_sorted.
  - apply sort_reversed_perm.
  - compute_done.
Defined.

Lemma page_length_sample :
  length
    (body_posts
       (response_body
          (get_api_posts sort_newer_first (mkquery (Some "3") (Some "8"))
             feed_world).1))
  = 4%nat.
Proof.
  rewrite (page_length sort_newer_first (mkquery (Some "3") (Some "8"))
             feed_world 3 8); [reflexivity|apply sort_newer_first_perm|done..].
Defined.

Lemma decimal_parameters_are_read_sample :
  page_limit_offset (mkquery (Some "3") (Some "20")) = (Num 3, Num 20, Num 40)
  ∧ page_limit_offset (mkquery (Some "-3") (Some "70")) = (Num 1, Num 50, Num 0).
Proof.
  split.
  - apply (decimal_parameters_are_read 3 20); done.
  - apply (decimal_parameters_are_read (-3) 70); done.
Defined.

Lemma new_post_tops_the_feed_sample :
  ∃ others,
    body_posts
      (response_body
         (get_api_posts sort_newer_first (mkquery None None)
            (post_api_posts (mkform (Some "hello") None None) (Some [])
               sample_world).2).1)
    = post_view
        (db (post_api_posts (mkform (Some "hello") None None) (Some [])
               sample_world).2)
        (Post.mk (sample_uuid 0) "Anônimo" "hello" "" (sample_clock 0))
      :: others.
Proof.
  apply (new_post_tops_the_feed sort_newer_first
           (mkform (Some "hello") None None) [] sample_world).
  - apply sort_newer_first_sorted.
  - apply sort_newer_first_perm.
  - compute_done.
  - compute_done.
  - apply Forall_forall. compute_done.
  - intros p ->%list_elem_of_singleton. done.
Defined.

Lemma every_post_is_on_some_page_sample :
  ∃ rank : nat,
    sort_newer_first twenty_posts !! rank = Some (Post.mk "p7" "Bob" "" "" 7)
    ∧ post_view (db feed_world) (Post.mk "p7" "Bob" "" "" 7)
      ∈ body_posts
          (response_body
             (get_api_posts sort_newer_first
                (mkquery (Some (pretty (Z.of_nat rank `div` 8 + 1)))
                   (Some "8")) feed_world).1).
Proof.
  apply (every_post_is_on_some_page sort_newer_first feed_world 8
           (Post.mk "p7" "Bob" "" "" 7)).
  - apply sort_newer_first_perm.
  - done.
  - done.
  - apply list_elem_of_fmap. exists 7%nat. split; [reflexivity|compute_done].
Defined.
